(** * wikidump: the wikitext structural extractors

    A shallow embedding of [wikidump/extractors/misc.py] (the section
    segmenter, the wikilink extractor and its section attribution) together
    with the Python built-ins and the regular expressions the module relies
    on.

    Conventions.
    - A Python [str] is a [list ascii]: the model covers documents whose
      code points are below 256.
    - Python integers are [Z]; offsets produced by the pattern matcher are
      computed on [nat] and injected into [Z].
    - A generator is the list of the values it yields, paired with the way
      it stops (normal exhaustion or a raised exception). *)

From Stdlib Require Import Ascii String Bool Arith ZArith Lia List Sorted.
Import ListNotations.

Local Open Scope Z_scope.

Definition text := list ascii.

(** Literal documents are written as Rocq strings. *)
Definition T (s : string) : text := list_ascii_of_string s.

Definition newline : ascii := "010"%char.

Definition len (s : text) : Z := Z.of_nat (length s).

(** ** Python built-ins used by the module *)
Module Py.

(** [s[lo:hi]] with CPython's index normalisation: a negative bound counts
    from the end, every bound is clamped to [0 .. len s]. *)
Definition norm_index (n i : Z) : Z :=
  if i <? 0 then Z.max 0 (i + n) else Z.min i n.

Definition slice {A} (s : list A) (lo hi : Z) : list A :=
  let n := Z.of_nat (length s) in
  let a := norm_index n lo in
  let b := norm_index n hi in
  firstn (Z.to_nat (b - a)) (skipn (Z.to_nat a) s).

(** [s[:hi]] and [s[lo:]]. *)
Definition slice_to {A} (s : list A) (hi : Z) : list A := slice s 0 hi.
Definition slice_from {A} (s : list A) (lo : Z) : list A :=
  slice s lo (Z.of_nat (length s)).

Definition code (c : ascii) : N := N_of_ascii c.

(** [str.isspace] on one character (code points below 256). *)
Definition isspace (c : ascii) : bool :=
  let n := code c in
  (((9 <=? n) && (n <=? 13)) || ((28 <=? n) && (n <=? 32))
   || (n =? 133) || (n =? 160))%N.

Definition mem (c : ascii) (cs : text) : bool :=
  existsb (Ascii.eqb c) cs.

(** [s.lstrip(chars)], [s.rstrip(chars)], [s.strip(chars)], with the
    character class given as a predicate; [strip_ws] is [s.strip()]. *)
Fixpoint lstrip_by (p : ascii -> bool) (s : text) : text :=
  match s with
  | c :: r => if p c then lstrip_by p r else s
  | [] => []
  end.

Definition rstrip_by (p : ascii -> bool) (s : text) : text :=
  rev (lstrip_by p (rev s)).

Definition strip_by (p : ascii -> bool) (s : text) : text :=
  rstrip_by p (lstrip_by p s).

Definition lstrip (cs : text) := lstrip_by (fun c => mem c cs).
Definition rstrip (cs : text) := rstrip_by (fun c => mem c cs).
Definition strip (cs : text) := strip_by (fun c => mem c cs).
Definition strip_ws := strip_by isspace.

(** [s.find(c)] for a one-character needle: the first index, or [-1]. *)
Fixpoint find_from (c : ascii) (s : text) (i : Z) : Z :=
  match s with
  | [] => -1
  | d :: r => if Ascii.eqb d c then i else find_from c r (i + 1)
  end.

Definition find (s : text) (c : ascii) : Z := find_from c s 0.

(** Truth value of an integer and of a string. *)
Definition truthy (z : Z) : bool := negb (z =? 0).
Definition nonempty (s : text) : bool :=
  match s with [] => false | _ => true end.

(** [a or b] on strings, and on an optional string ([None] is falsy). *)
Definition or_else (a b : text) : text := if nonempty a then a else b.
Definition opt_or_else (a : option text) (b : text) : text :=
  match a with Some x => or_else x b | None => b end.

(** [s.split(c, 1)] when [c] occurs in [s]: the text before the first
    occurrence and the text after it. *)
Fixpoint split_once (c : ascii) (s : text) : text * text :=
  match s with
  | [] => ([], [])
  | d :: r =>
      if Ascii.eqb d c then ([], r)
      else let '(a, b) := split_once c r in (d :: a, b)
  end.

(** [s.replace(a, b)] for one-character [a] and [b]. *)
Definition replace (a b : ascii) (s : text) : text :=
  map (fun c => if Ascii.eqb c a then b else c) s.

(** [s.split()]: the maximal runs of non-whitespace characters. *)
Fixpoint split_ws_acc (cur : text) (s : text) : list text :=
  match s with
  | [] => match cur with [] => [] | _ => [rev cur] end
  | c :: r =>
      if isspace c
      then match cur with
           | [] => split_ws_acc [] r
           | _ => rev cur :: split_ws_acc [] r
           end
      else split_ws_acc (c :: cur) r
  end.

Definition split_ws (s : text) : list text := split_ws_acc [] s.

(** [sep.join(parts)]. *)
Fixpoint join (sep : text) (parts : list text) : text :=
  match parts with
  | [] => []
  | [p] => p
  | p :: ps => p ++ sep ++ join sep ps
  end.

End Py.

(** ** Spans and capture results *)
Module Common.

(** Modelled from the spec: [extractors/common.py] is not part of the
    sources at hand; a [Span] is the pair of offsets [(begin, end)] and a
    [CaptureResult] pairs the extracted entity with its span. *)
Record Span := mkSpan { span_begin : Z; span_end : Z }.

Record CaptureResult (A : Type) := mkCapture { data : A; span : Span }.

Arguments mkCapture {A} _ _.
Arguments data {A} _.
Arguments span {A} _.

End Common.
Import Common.

(** ** The patterns of [misc.py], as backtracking matchers *)
Module Regex.

(** [\s] of the pattern engine. *)
Definition re_space (c : ascii) : bool :=
  let n := Py.code c in
  (((9 <=? n) && (n <=? 13)) || (n =? 32) || (n =? 133) || (n =? 160))%N.

Definition is_nl (c : ascii) : bool := Ascii.eqb c newline.
Definition is_equals (c : ascii) : bool := Ascii.eqb c "="%char.

(** Length of the longest prefix whose characters satisfy [p]. *)
Fixpoint run (p : ascii -> bool) (l : text) : nat :=
  match l with
  | c :: r => if p c then S (run p r) else O
  | [] => O
  end.

Fixpoint starts_with (pre l : text) : bool :=
  match pre, l with
  | [], _ => true
  | a :: pre', b :: l' => Ascii.eqb a b && starts_with pre' l'
  | _ :: _, [] => false
  end.

(** [$] under MULTILINE: end of text, or just before a line break. *)
Definition at_eol (l : text) : bool :=
  match l with
  | [] => true
  | c :: _ => is_nl c
  end.

(** [^] under MULTILINE, from the character before the position. *)
Definition at_bol (prev : option ascii) : bool :=
  match prev with
  | None => true
  | Some c => is_nl c
  end.

(** *** [section_header_re]
    [^(?P<equals>=+)(?P<section_name>.+?)(?P=equals)\s*$] *)

(** [\s*$]: the greedy run gives back one character at a time until the
    end-of-line assertion holds; [w] is the width being tried. *)
Fixpoint spaces_eol (w : nat) (l : text) : option nat :=
  if at_eol (skipn w l) then Some w
  else match w with
       | O => None
       | S w' => spaces_eol w' l
       end.

(** What follows the section name: the back-reference, then [\s*$]. *)
Definition header_close (eqs l : text) : option nat :=
  if starts_with eqs l
  then let l' := skipn (length eqs) l in spaces_eol (run re_space l') l'
  else None.

(** [.+?] after [n >= 1] characters of the name have been taken: try to
    close the header here, otherwise take one more character that is not a
    line break. Yields (name length, trailing whitespace width). *)
Fixpoint header_name (eqs l : text) (n : nat) : option (nat * nat) :=
  match header_close eqs l with
  | Some w => Some (n, w)
  | None =>
      match l with
      | c :: r => if is_nl c then None else header_name eqs r (S n)
      | [] => None
      end
  end.

(** [=+], greedy: [k] equals signs are tried first, then [k - 1], down to
    one. Yields (level, name length, trailing whitespace width). *)
Fixpoint header_equals (k : nat) (l : text) : option (nat * nat * nat) :=
  match k with
  | O => None
  | S k' =>
      let attempt :=
        match skipn k l with
        | c :: r =>
            if is_nl c then None
            else header_name (repeat "="%char k) r 1
        | [] => None
        end in
      match attempt with
      | Some (n, w) => Some (k, n, w)
      | None => header_equals k' l
      end
  end.

(** The pattern anchored at the head of [l] (a line start). *)
Definition header_at (l : text) : option (nat * nat * nat) :=
  header_equals (run is_equals l) l.

(** A match object of [section_header_re]. *)
Record header_match := mkHeader {
  h_start : Z;
  h_end : Z;
  h_equals : text;
  h_section_name : text
}.

(** [section_header_re.finditer]: left to right, the search resuming where
    the previous match ended. [pos] is the offset of the head of [l],
    [prev] the character before it, and [skip] the number of characters
    of [l] still covered by the previous match. *)
Fixpoint header_scan (prev : option ascii) (skip : nat) (pos : nat)
         (l : text) : list header_match :=
  match l with
  | [] => []
  | c :: r =>
      match skip with
      | S s => header_scan (Some c) s (S pos) r
      | O =>
          match (if at_bol prev then header_at l else None) with
          | Some (k, n, w) =>
              mkHeader (Z.of_nat pos) (Z.of_nat (pos + (k + n + k + w)))
                       (repeat "="%char k) (firstn n (skipn k l))
              :: header_scan (Some c) (k + n + k + w - 1) (S pos) r
          | None => header_scan (Some c) O (S pos) r
          end
      end
  end.

Definition header_finditer (source : text) : list header_match :=
  header_scan None O O source.

(** *** [wikilink_simple_re]
    [\[\[[^\n\]\[]+?\]\]] *)

Definition simple_class (c : ascii) : bool :=
  negb (is_nl c || Ascii.eqb c "]"%char || Ascii.eqb c "["%char).

(** [[^\n\]\[]+?\]\]] after [n >= 1] characters of the class. *)
Fixpoint simple_body (l : text) (n : nat) : option nat :=
  if starts_with (T "]]") l then Some n
  else match l with
       | c :: r => if simple_class c then simple_body r (S n) else None
       | [] => None
       end.

(** The pattern anchored at the head of [l]: the length of the match. *)
Definition simple_at (l : text) : option nat :=
  match l with
  | a :: b :: c :: r =>
      if Ascii.eqb a "["%char && Ascii.eqb b "["%char && simple_class c
      then option_map (fun n => 2 + n + 2)%nat (simple_body r 1)
      else None
  | _ => None
  end.

(** A match object of [wikilink_simple_re]. *)
Record simple_match := mkSimple {
  s_start : Z;
  s_end : Z;
  s_group0 : text
}.

Fixpoint simple_scan (skip : nat) (pos : nat) (l : text)
  : list simple_match :=
  match l with
  | [] => []
  | _ :: r =>
      match skip with
      | S s => simple_scan s (S pos) r
      | O =>
          match simple_at l with
          | Some n =>
              mkSimple (Z.of_nat pos) (Z.of_nat (pos + n)) (firstn n l)
              :: simple_scan (n - 1) (S pos) r
          | None => simple_scan O (S pos) r
          end
      end
  end.

(** [wikilink_simple_re.finditer(source)]. *)
Definition simple_finditer (source : text) : list simple_match :=
  simple_scan O O source.

(** *** [space_re] and [space_rtl_re]
    [\s], searched forward, and [(?r)\s], searched from the right: the
    offset of the first, respectively the last, whitespace character. *)
Fixpoint space_search_from (l : text) (i : Z) : option Z :=
  match l with
  | [] => None
  | c :: r => if re_space c then Some i else space_search_from r (i + 1)
  end.

Definition space_search (l : text) : option Z := space_search_from l 0.

Fixpoint space_rtl_search_from (l : text) (i : Z) : option Z :=
  match l with
  | [] => None
  | c :: r =>
      match space_rtl_search_from r (i + 1) with
      | Some j => Some j
      | None => if re_space c then Some i else None
      end
  end.

Definition space_rtl_search (l : text) : option Z :=
  space_rtl_search_from l 0.

(** *** [wikilink_re]
    (verbose syntax, blanks are not part of the pattern)
    [\s? (?P<total> \S*? (?P<wikilink> \[\[
       (?P<link> [^\n\|\]\[\<\>\{\}]{0,256} )
       (?: \| (?P<anchor> [^\[]*? ) )? \]\] ) \S* ) \s?] *)

Definition link_class (c : ascii) : bool :=
  negb (is_nl c || Py.mem c (T "|][<>{}")).

Definition non_space (c : ascii) : bool := negb (re_space c).

(** [(?P<anchor>[^\[]*?)\]\]] after [m] characters of the anchor. *)
Fixpoint anchor_lazy (l : text) (m : nat) : option nat :=
  if starts_with (T "]]") l then Some m
  else match l with
       | c :: r =>
           if Ascii.eqb c "["%char then None else anchor_lazy r (S m)
       | [] => None
       end.

(** [(?:\|(?P<anchor>...))?\]\]]: the optional group is tried first.
    Yields the anchor length when the group took part, and the width
    consumed up to and including the closing brackets. *)
Definition link_close (l : text) : option (option nat * nat) :=
  let with_anchor :=
    match l with
    | c :: r =>
        if Ascii.eqb c "|"%char
        then option_map (fun m => (Some m, 1 + m + 2)%nat) (anchor_lazy r O)
        else None
    | [] => None
    end in
  match with_anchor with
  | Some res => Some res
  | None => if starts_with (T "]]") l then Some (None, 2%nat) else None
  end.

(** [(?P<link>[...]{0,256})], greedy: [n] characters are tried first, then
    [n - 1], down to none. Yields (link length, anchor length, width of
    the closing part). *)
Fixpoint link_greedy (n : nat) (l : text)
  : option (nat * option nat * nat) :=
  match link_close (skipn n l) with
  | Some (a, w) => Some (n, a, w)
  | None =>
      match n with
      | O => None
      | S n' => link_greedy n' l
      end
  end.

(** The [wikilink] group anchored at the head of [l]. *)
Definition wikilink_at (l : text) : option (nat * option nat * nat) :=
  if starts_with (T "[[") l
  then let l' := skipn 2 l in
       link_greedy (Nat.min 256 (run link_class l')) l'
  else None.

(** The offsets of a match of [wikilink_re], relative to the searched
    text, and its two inner groups. *)
Record wikilink_match := mkWikilinkMatch {
  w_start : Z;
  w_total_start : Z;
  w_wikilink_start : Z;
  w_link : text;
  w_anchor : option text;
  w_wikilink_end : Z;
  w_total_end : Z;
  w_end : Z
}.

(** [\S*?] of the [total] group after [a] characters: try the bracketed
    link here, otherwise take one more non-space character. [start] is
    the offset of the whole match, [tstart] that of [total]. *)
Fixpoint total_lazy (start tstart : nat) (l : text) (a : nat)
  : option wikilink_match :=
  match wikilink_at l with
  | Some (n, an, w) =>
      let wl_start := (tstart + a)%nat in
      let wl_end := (wl_start + 2 + n + w)%nat in
      let after := skipn (2 + n + w) l in
      let t_end := (wl_end + run non_space after)%nat in
      let tail := skipn (run non_space after) after in
      let m_end :=
        match tail with
        | c :: _ => if re_space c then S t_end else t_end
        | [] => t_end
        end in
      Some (mkWikilinkMatch
              (Z.of_nat start) (Z.of_nat tstart) (Z.of_nat wl_start)
              (firstn n (skipn 2 l))
              (option_map (fun m => firstn m (skipn (2 + n + 1) l)) an)
              (Z.of_nat wl_end) (Z.of_nat t_end) (Z.of_nat m_end))
  | None =>
      match l with
      | c :: r =>
          if non_space c then total_lazy start tstart r (S a) else None
      | [] => None
      end
  end.

(** The pattern anchored at offset [pos], the head of [l]: the leading
    [\s?] takes a whitespace character when there is one and gives it
    back if the rest fails. *)
Definition wikilink_match_at (pos : nat) (l : text)
  : option wikilink_match :=
  let greedy :=
    match l with
    | c :: r => if re_space c then total_lazy pos (S pos) r O else None
    | [] => None
    end in
  match greedy with
  | Some m => Some m
  | None => total_lazy pos pos l O
  end.

Fixpoint wikilink_search_from (pos : nat) (l : text)
  : option wikilink_match :=
  match wikilink_match_at pos l with
  | Some m => Some m
  | None =>
      match l with
      | _ :: r => wikilink_search_from (S pos) r
      | [] => None
      end
  end.

(** [wikilink_re.search(subtext)]. *)
Definition wikilink_search (subtext : text) : option wikilink_match :=
  wikilink_search_from O subtext.


End Regex.

(** ** [misc.py]: sections *)
Module Misc.

Import Regex.

(** [class Section]; [_full_body] is the memo slot of the property. *)
Record Section_ := mkSection {
  name : text;
  level : Z;
  body : text;
  _full_body : option text
}.

(** [Section.__init__]. *)
Definition Section_init (name : text) (level : Z) (body : text) : Section_ :=
  mkSection name level body None.

Definition is_preamble (s : Section_) : bool := level s =? 0.

(** The [full_body] property: the value returned and the object after the
    access (the memo slot may have been filled). *)
Definition full_body (s : Section_) : text * Section_ :=
  match _full_body s with
  | Some cached => (cached, s)
  | None =>
      let fb :=
        if is_preamble s then body s
        else
          let equals := repeat "="%char (Z.to_nat (level s)) in
          equals ++ name s ++ equals ++ [newline] ++ body s in
      (fb, mkSection (name s) (level s) (body s) (Some fb))
  end.

(** [body_end] of a section: one before the next header when there is
    one (the [peek] succeeds), the end of the text otherwise. *)
Definition body_end_before (source : text) (next : list header_match) : Z :=
  match next with
  | m :: _ => h_start m - 1
  | [] => len source
  end.

(** The [for match in section_header_matches] loop. *)
Fixpoint sections_loop (source : text) (ms : list header_match)
  : list (CaptureResult Section_) :=
  match ms with
  | [] => []
  | m :: rest =>
      let name := h_section_name m in
      let level := len (h_equals m) in
      let body_begin := h_end m + 1 in
      let body_end := body_end_before source rest in
      mkCapture (Section_init name level
                              (Py.slice source body_begin body_end))
                (mkSpan (h_start m) body_end)
      :: sections_loop source rest
  end.

(** [sections(source, include_preamble)]. *)
Definition sections (source : text) (include_preamble : bool)
  : list (CaptureResult Section_) :=
  let section_header_matches := header_finditer source in
  (if include_preamble
   then
     let body_end := body_end_before source section_header_matches in
     [mkCapture (Section_init [] 0 (Py.slice_to source body_end))
                (mkSpan 0 body_end)]
   else [])
  ++ sections_loop source section_header_matches.

Definition spans {A} (rs : list (CaptureResult A)) : list Span :=
  map span rs.

(** *** Wikilinks *)

(** [class Wikilink]. *)
Record Wikilink := mkWikilink {
  link : text;
  tosection : text;
  anchor : text;
  section_name : text;
  section_level : Z;
  section_number : Z
}.

(** [SectionLimits]. *)
Record SectionLimits := mkLimits {
  sl_name : text;
  sl_level : Z;
  sl_number : Z;
  sl_begin : Z;
  sl_end : Z
}.

(** Exceptions the function can raise. *)
Inductive exn :=
| UnboundLocalError (variable : string)
| ZeroDivisionError.

Definition result (A : Type) := (exn + A)%type.
Definition ret {A} (a : A) : result A := inr a.
Definition raise {A} (e : exn) : result A := inl e.
Definition bind {A B} (m : result A) (k : A -> result B) : result B :=
  match m with
  | inl e => inl e
  | inr a => k a
  end.

Notation "x <- m ;; k" := (bind m (fun x => k))
  (at level 61, m at next level, right associativity).

(** Reading and deleting a local variable: a slot that holds no value
    raises [UnboundLocalError]. *)
Definition load_fast {A} (variable : string) (slot : option A) : result A :=
  match slot with
  | Some v => ret v
  | None => raise (UnboundLocalError variable)
  end.

Definition delete_fast {A} (variable : string) (slot : option A)
  : result unit :=
  match slot with
  | Some _ => ret tt
  | None => raise (UnboundLocalError variable)
  end.

(** [reverse_position(revpos, strlen)]. *)
Definition reverse_position (revpos strlen : Z) : result Z :=
  if revpos =? -1 then ret (-1)
  else if strlen =? 0 then raise ZeroDivisionError
  else ret ((- (revpos + 1)) mod strlen).

(** The list comprehension building [sections_limits]:
    [enumerate(sections, 1)]. *)
Fixpoint enumerate_limits (idx : Z) (secs : list (CaptureResult Section_))
  : list SectionLimits :=
  match secs with
  | [] => []
  | c :: rest =>
      mkLimits (name (data c)) (level (data c)) idx
               (span_begin (span c)) (span_end (span c))
      :: enumerate_limits (idx + 1) rest
  end.

Definition sections_limits_of (secs : list (CaptureResult Section_))
  : list SectionLimits :=
  enumerate_limits 1 secs.

(** The left boundary of the window (the statements from
    [space_prev_match = ...] to [del revtext]). [revtext] is the slot of
    the local variable of that name. *)
Definition widen_left (source : text) (revtext : option text)
           (prevmatch_start simple_start : Z) : result Z :=
  let space_prev_match :=
    space_rtl_search (Py.slice source prevmatch_start simple_start) in
  space_prev_pos <-
    match space_prev_match with
    | Some spacepos =>
        rt <- load_fast "revtext" revtext ;;
        space_prev_match_pos <- reverse_position spacepos (len rt) ;;
        ret (prevmatch_start + spacepos)
    | None => ret simple_start
    end ;;
  _ <- delete_fast "revtext" revtext ;;
  ret space_prev_pos.

(** The right boundary of the window. *)
Definition widen_right (source : text) (simple_end : Z) : Z :=
  match space_search (Py.slice_from source simple_end) with
  | Some p => simple_end + p
  | None => simple_end
  end.

(** [simple_match.group(0).strip().lstrip('[').rstrip(']')]. *)
Definition simple_match_text (group0 : text) : text :=
  Py.rstrip (T "]") (Py.lstrip (T "[") (Py.strip_ws group0)).

(** The condition of the [if] in the mismatch branch: the truth value of
    [t.find('|') or t.find('>') or t.find('<') or t.find('{') or
     t.find('}')]. *)
Definition mismatch_test (t : text) : bool :=
  Py.truthy (Py.find t "|"%char) || Py.truthy (Py.find t ">"%char)
  || Py.truthy (Py.find t "<"%char) || Py.truthy (Py.find t "{"%char)
  || Py.truthy (Py.find t "}"%char).

(** What one turn of the loop does besides updating its variables. *)
Inductive action :=
| Skipped                               (* [continue] *)
| Breakpoint                            (* [ipdb.set_trace()] *)
| Yielded (r : CaptureResult Wikilink). (* [yield] *)

(** The branch [if match is None]. *)
Definition on_mismatch (group0 : text) : action :=
  if mismatch_test (simple_match_text group0) then Skipped else Breakpoint.

(** From [link = match.group('link') or ''] to the normalisation of the
    anchor: the resolved (link, tosection, anchor). *)
Definition resolve (page_title : text) (m : wikilink_match)
  : text * text * text :=
  let link := Py.or_else (w_link m) [] in
  let link := Py.strip_ws link in
  let '(link, tosection) :=
    if Py.mem "#"%char link
    then
      let '(l0, l1) := Py.split_once "#"%char link in
      ((if Py.nonempty l0 then l0 else page_title), l1)
    else (link, []) in
  let anchor := Py.opt_or_else (w_anchor m) link in
  let anchor := Py.replace newline " "%char anchor in
  let anchor := Py.join (T " ") (Py.split_ws (Py.strip_ws anchor)) in
  (link, tosection, anchor).

Definition incipit : text := T "---~--- incipit ---~---".

(** The body of [for section in sections_limits[last_section_seen:]]:
    the first section whose limits contain [total_start]. *)
Fixpoint first_containing (secs : list SectionLimits) (total_start : Z)
  : option SectionLimits :=
  match secs with
  | [] => None
  | s :: rest =>
      if (sl_begin s <=? total_start) && (total_start <=? sl_end s)
      then Some s
      else first_containing rest total_start
  end.

(** Section attribution: (number, name, level) of the owning section and
    the new value of [last_section_seen]. *)
Definition attribute (sections_limits : list SectionLimits)
           (last_section_seen total_start : Z) : Z * text * Z * Z :=
  match first_containing (Py.slice_from sections_limits last_section_seen)
                         total_start with
  | Some s =>
      (sl_number s, sl_name s, sl_level s,
       if sl_number s >? 0 then sl_number s - 1 else 0)
  | None => (0, incipit, 0, last_section_seen)
  end.

(** [anchor_prefix + anchor + anchor_suffix], the last assignment to
    [anchor]. *)
Definition anchor_with_affixes (source : text) (m : wikilink_match)
           (anchor : text) : text :=
  let anchor_prefix :=
    Py.strip (T "[")
             (Py.slice source (w_total_start m) (w_wikilink_start m)) in
  let anchor_suffix :=
    Py.strip (T "]")
             (Py.slice source (w_wikilink_end m) (w_total_end m)) in
  anchor_prefix ++ anchor ++ anchor_suffix.

(** The loop variables that survive a turn. *)
Record loop_state := mkState {
  last_section_seen : Z;
  prevmatch_start : Z;
  prevmatch_end : Z
}.

(** The [else] branch of [if match is None]: a match was found. *)
Definition on_match (page_title source : text)
           (sections_limits : list SectionLimits) (st : loop_state)
           (m : wikilink_match) : action * loop_state :=
  let prevmatch_start := w_start m in
  let prevmatch_end := w_end m in
  let '(link, tosection, anchor) := resolve page_title m in
  let total_start := w_total_start m in
  let total_end := w_total_end m in
  let '(link_section_number, link_section_name, link_section_level, seen) :=
    attribute sections_limits (last_section_seen st) total_start in
  let st' := mkState seen prevmatch_start prevmatch_end in
  if negb (Py.nonempty link) then (Skipped, st')
  else
    let wikilink :=
      mkWikilink link tosection anchor link_section_name
                 link_section_level link_section_number in
    let anchor := anchor_with_affixes source m anchor in
    (Yielded (mkCapture wikilink (mkSpan total_start total_end)), st').

(** One turn of the loop once the window [space_prev_pos, space_post_pos)
    is known (from [match = None] to the [yield]). *)
Definition on_window (page_title source : text)
           (sections_limits : list SectionLimits) (st : loop_state)
           (simple : simple_match) (space_prev_pos space_post_pos : Z)
  : action * loop_state :=
  let subtext := Py.slice source space_prev_pos space_post_pos in
  match wikilink_search subtext with
  | None => (on_mismatch (s_group0 simple), st)
  | Some m => on_match page_title source sections_limits st m
  end.

(** What a caller observes of a generator: the actions in order, and the
    exception that ended it, if any. *)
Record trace := mkTrace {
  actions : list action;
  raised : option exn
}.

(** [for simple_match in wikilink_simple_matches]. *)
Fixpoint wikilinks_loop (page_title source : text)
         (sections_limits : list SectionLimits) (revtext : option text)
         (st : loop_state) (candidates : list simple_match) : trace :=
  match candidates with
  | [] => mkTrace [] None
  | simple :: rest =>
      match widen_left source revtext (prevmatch_start st)
                       (s_start simple) with
      | inl e => mkTrace [] (Some e)
      | inr space_prev_pos =>
          let space_post_pos := widen_right source (s_end simple) in
          let '(act, st') :=
            on_window page_title source sections_limits st simple
                      space_prev_pos space_post_pos in
          let t := wikilinks_loop page_title source sections_limits
                                  revtext st' rest in
          mkTrace (act :: actions t) (raised t)
      end
  end.

(** [wikilinks(page_title, source, sections)] with the default
    [debug=False]. No statement of the function assigns [revtext], so its
    slot is empty throughout. *)
Definition wikilinks (page_title source : text)
           (sections : list (CaptureResult Section_)) : trace :=
  let wikilink_simple_matches := simple_finditer source in
  let sections_limits := sections_limits_of sections in
  wikilinks_loop page_title source sections_limits None
                 (mkState 0 0 0) wikilink_simple_matches.

(** The capture results a trace yields. *)
Fixpoint yields (acts : list action) : list (CaptureResult Wikilink) :=
  match acts with
  | [] => []
  | Yielded r :: rest => r :: yields rest
  | _ :: rest => yields rest
  end.

End Misc.

(** ** [timeout.py] *)
Module Timeout.

(** [class CallTimeout(Exception)], and any other exception the wrapped
    function may raise, by its text. *)
Inductive exception :=
| CallTimeout (message : string)
| OtherException (what : string).

(** A frame, as far as [handler] reads it: [frame.f_code.co_name]. *)
Record frame := mkFrame { co_name : string }.

(** [handler(signum, frame)]: the exception it raises. *)
Definition handler (signum : Z) (fr : frame) : exception :=
  let funcname := co_name fr in
  CallTimeout (funcname ++ " timed out").

Definition SIGALRM : Z := 14.

(** The signal state of the process: whether [handler] is installed for
    SIGALRM, and the seconds of the pending alarm (0: no alarm is armed). *)
Record signals := mkSignals {
  sigalrm_handler : bool;
  alarm_pending : Z
}.

(** [signal.signal(signal.SIGALRM, handler)]. *)
Definition signal_signal (st : signals) : signals :=
  mkSignals true (alarm_pending st).

(** [signal.alarm(seconds)]: arms the alarm, or cancels it with 0. *)
Definition signal_alarm (seconds : Z) (st : signals) : signals :=
  mkSignals (sigalrm_handler st) seconds.

(** The pending alarm goes off: it is delivered once and is no longer
    pending. *)
Definition alarm_expires (st : signals) : signals :=
  mkSignals (sigalrm_handler st) 0.

(** What comes first while [func( *args, **kwargs)] runs under the armed
    alarm: the call returns a value, it raises an exception of its own, or
    the alarm is delivered while the frame [fr] is executing. *)
Inductive event (V : Type) :=
| Returns (v : V)
| Raises (what : string)
| Alarm (fr : frame).

Arguments Returns {V} _.
Arguments Raises {V} _.
Arguments Alarm {V} _.

(** [wrap_timeout(func, timeout, args=None, kwargs=None)] from the signal
    state [st]: the value returned or the exception that leaves the
    function, and the signal state it leaves. *)
Definition wrap_timeout {A K V : Type}
           (func : list A -> list (string * K) -> event V) (timeout : Z)
           (args : option (list A)) (kwargs : option (list (string * K)))
           (st : signals) : (exception + V) * signals :=
  let args := match args with None => [] | Some a => a end in
  let kwargs := match kwargs with None => [] | Some k => k end in
  let st := signal_signal st in
  let st := signal_alarm timeout st in
  match func args kwargs with
  | Returns res =>
      let st := signal_alarm 0 st in
      (inr res, st)
  | Raises what => (inl (OtherException what), st)
  | Alarm fr => (inl (handler SIGALRM fr), alarm_expires st)
  end.

End Timeout.

(** ** [misc.py]: references and templates *)
Module Captures.

Import Regex.

(** [.*?] under DOTALL followed by the literal [close], after [n]
    characters: close here if the literal is next, otherwise take one more
    character, whatever it is. *)
Fixpoint lazy_until (close : text) (l : text) (n : nat) : option nat :=
  if starts_with close l then Some n
  else match l with
       | _ :: r => lazy_until close r (S n)
       | [] => None
       end.

(** [templates_re]: [\{\{(?P<content>(?s).*?)\}\}]. The length of the
    match anchored at the head of [l]. *)
Definition template_at (l : text) : option nat :=
  if starts_with (T "{{") l
  then option_map (fun n => 2 + n + 2)%nat (lazy_until (T "}}") (skipn 2 l) O)
  else None.

(** Lower case of a letter [A-Z]; IGNORECASE compares characters up to
    this. *)
Definition lower (c : ascii) : ascii :=
  let n := Py.code c in
  if ((65 <=? n) && (n <=? 90))%N then ascii_of_N (n + 32) else c.

Definition eqb_nocase (a b : ascii) : bool := Ascii.eqb (lower a) (lower b).

Fixpoint starts_with_nocase (pre l : text) : bool :=
  match pre, l with
  | [], _ => true
  | a :: pre', b :: l' => eqb_nocase a b && starts_with_nocase pre' l'
  | _ :: _, [] => false
  end.

Fixpoint lazy_until_nocase (close : text) (l : text) (n : nat)
  : option nat :=
  if starts_with_nocase close l then Some n
  else match l with
       | _ :: r => lazy_until_nocase close r (S n)
       | [] => None
       end.

(** The pattern of [references]: [<ref.*?<\/ref>] under IGNORECASE and
    DOTALL. *)
Definition reference_at (l : text) : option nat :=
  if starts_with_nocase (T "<ref") l
  then option_map (fun n => 4 + n + 6)%nat
                  (lazy_until_nocase (T "</ref>") (skipn 4 l) O)
  else None.

(** [pattern.finditer(source)] for a pattern given by its anchored
    matcher, each match yielded as
    [CaptureResult(match.group(0), Span(begin, end))] with the offsets of
    the match. *)
Fixpoint capture_scan (at_ : text -> option nat) (skip pos : nat) (l : text)
  : list (CaptureResult text) :=
  match l with
  | [] => []
  | _ :: r =>
      match skip with
      | S s => capture_scan at_ s (S pos) r
      | O =>
          match at_ l with
          | Some n =>
              mkCapture (firstn n l)
                        (mkSpan (Z.of_nat pos) (Z.of_nat (pos + n)))
              :: capture_scan at_ (n - 1) (S pos) r
          | None => capture_scan at_ O (S pos) r
          end
      end
  end.

(** [templates(source)]. *)
Definition templates (source : text) : list (CaptureResult text) :=
  capture_scan template_at O O source.

(** [references(source)]. *)
Definition references (source : text) : list (CaptureResult text) :=
  capture_scan reference_at O O source.

End Captures.

Import Regex.
Import Misc.

(** * Properties *)

(** ** The header matcher stays inside the text *)

Lemma run_le_length (p : ascii -> bool) (l : text) :
  (run p l <= length l)%nat.
Proof.
  induction l as [|c r IH]; simpl; [lia|].
  destruct (p c); simpl; lia.
Qed.

Lemma starts_with_length (pre l : text) :
  starts_with pre l = true -> (length pre <= length l)%nat.
Proof.
  revert l; induction pre as [|a pre IH]; intros [|b l]; simpl;
    try lia; try discriminate.
  intros H. apply andb_true_iff in H as [_ H]. apply IH in H. lia.
Qed.

Lemma spaces_eol_le (w : nat) (l : text) (w' : nat) :
  spaces_eol w l = Some w' -> (w' <= w)%nat.
Proof.
  induction w as [|w IH]; cbn [spaces_eol].
  - destruct (at_eol (skipn 0 l)); intros H; inversion H; lia.
  - destruct (at_eol (skipn (S w) l)).
    + intros H; inversion H; lia.
    + intros H. apply IH in H. lia.
Qed.

Lemma header_close_bound (eqs l : text) (w : nat) :
  header_close eqs l = Some w -> (length eqs + w <= length l)%nat.
Proof.
  unfold header_close.
  destruct (starts_with eqs l) eqn:Hs; [|discriminate].
  intros H. apply spaces_eol_le in H.
  apply starts_with_length in Hs.
  pose proof (run_le_length re_space (skipn (length eqs) l)) as Hr.
  rewrite length_skipn in Hr. lia.
Qed.

Lemma header_name_bound (eqs l : text) (n n' w : nat) :
  header_name eqs l n = Some (n', w) ->
  (n <= n' /\ (n' - n) + length eqs + w <= length l)%nat.
Proof.
  revert n; induction l as [|c r IH]; intros n; simpl.
  - destruct (header_close eqs []) eqn:Hc; [|discriminate].
    intros H; inversion H; subst. apply header_close_bound in Hc.
    simpl in Hc. lia.
  - destruct (header_close eqs (c :: r)) eqn:Hc.
    + intros H; inversion H; subst. apply header_close_bound in Hc.
      simpl in Hc. lia.
    + destruct (is_nl c); [discriminate|].
      intros H. apply IH in H. lia.
Qed.

Lemma skipn_cons_length {A} (k : nat) (l : list A) (c : A) (r : list A) :
  skipn k l = c :: r -> length l = (k + S (length r))%nat.
Proof.
  intros H.
  assert (Hl : length (skipn k l) = S (length r)) by (rewrite H; reflexivity).
  rewrite length_skipn in Hl. lia.
Qed.

Lemma header_equals_bound (k : nat) (l : text) (k' n w : nat) :
  header_equals k l = Some (k', n, w) ->
  (1 <= k' /\ 1 <= n /\ k' + n + k' + w <= length l)%nat.
Proof.
  induction k as [|k IH]; [discriminate|].
  cbn [header_equals].
  destruct (skipn (S k) l) as [|c r] eqn:Hsk.
  - apply IH.
  - destruct (is_nl c).
    + apply IH.
    + destruct (header_name (repeat "="%char (S k)) r 1) as [[n0 w0]|] eqn:Hn.
      * intros H; inversion H; subst.
        apply header_name_bound in Hn. rewrite repeat_length in Hn.
        apply skipn_cons_length in Hsk. lia.
      * apply IH.
Qed.

Lemma header_at_bound (l : text) (k n w : nat) :
  header_at l = Some (k, n, w) ->
  (1 <= k /\ 1 <= n /\ k + n + k + w <= length l)%nat.
Proof. apply header_equals_bound. Qed.

(** ** The header matches are disjoint and in document order *)

(** [headers_chain lo hi ms]: the matches lie in [lo .. hi], each is at
    least three characters wide and starts no earlier than the previous one
    ends. *)
Fixpoint headers_chain (lo hi : Z) (ms : list header_match) : Prop :=
  match ms with
  | [] => True
  | m :: rest =>
      lo <= h_start m /\ h_start m + 3 <= h_end m /\ h_end m <= hi
      /\ headers_chain (h_end m) hi rest
  end.

Lemma headers_chain_weaken (lo lo' hi : Z) (ms : list header_match) :
  lo' <= lo -> headers_chain lo hi ms -> headers_chain lo' hi ms.
Proof.
  destruct ms as [|m rest]; simpl; [trivial|].
  intros Hlo (H1 & H2 & H3 & H4). repeat split; try assumption; lia.
Qed.

Lemma header_scan_chain (l : text) :
  forall prev skip pos,
    headers_chain (Z.of_nat (pos + skip)) (Z.of_nat (pos + length l))
                  (header_scan prev skip pos l).
Proof.
  induction l as [|c r IH]; intros prev skip pos; [exact I|].
  cbn [header_scan length].
  destruct skip as [|s].
  - destruct (if at_bol prev then header_at (c :: r) else None)
      as [[[k n] w]|] eqn:Hm.
    + assert (Hb : header_at (c :: r) = Some (k, n, w))
        by (destruct (at_bol prev); [exact Hm | discriminate]).
      apply header_at_bound in Hb. cbn [length] in Hb.
      cbn [headers_chain h_start h_end].
      repeat split; try lia.
      specialize (IH (Some c) (k + n + k + w - 1)%nat (S pos)).
      replace (Z.of_nat (S pos + (k + n + k + w - 1)))
        with (Z.of_nat (pos + (k + n + k + w))) in IH by lia.
      replace (Z.of_nat (S pos + length r))
        with (Z.of_nat (pos + S (length r))) in IH by lia.
      exact IH.
    + specialize (IH (Some c) O (S pos)).
      replace (Z.of_nat (S pos + length r))
        with (Z.of_nat (pos + S (length r))) in IH by lia.
      eapply headers_chain_weaken; [|exact IH]. lia.
  - specialize (IH (Some c) s (S pos)).
    replace (Z.of_nat (S pos + s)) with (Z.of_nat (pos + S s)) in IH by lia.
    replace (Z.of_nat (S pos + length r))
      with (Z.of_nat (pos + S (length r))) in IH by lia.
    exact IH.
Qed.

Lemma header_finditer_chain (source : text) :
  headers_chain 0 (len source) (header_finditer source).
Proof.
  exact (header_scan_chain source None O O).
Qed.

(** A text that does not begin with a header line has no match at
    offset 0. *)
Lemma header_finditer_chain_from_1 (source : text) :
  header_at source = None ->
  headers_chain 1 (len source) (header_finditer source).
Proof.
  intros Hnone. unfold header_finditer.
  destruct source as [|c r]; [exact I|].
  cbn [header_scan at_bol]. rewrite Hnone.
  pose proof (header_scan_chain r (Some c) O 1%nat) as H.
  unfold len. cbn [length].
  replace (Z.of_nat (1 + length r)) with (Z.of_nat (S (length r))) in H by lia.
  exact H.
Qed.

(** ** Every header match starts a line *)

(** The last character of a text, if any. *)
Definition last_char (pre : text) : option ascii :=
  match rev pre with
  | [] => None
  | c :: _ => Some c
  end.

Lemma last_char_snoc (pre : text) (c : ascii) :
  last_char (pre ++ [c]) = Some c.
Proof. unfold last_char. rewrite rev_app_distr. reflexivity. Qed.

Lemma last_char_nth (pre l : text) (x : ascii) :
  last_char pre = Some x ->
  nth_error (pre ++ l) (length pre - 1) = Some x.
Proof.
  unfold last_char. destruct (rev pre) as [|y q] eqn:Hrev; [discriminate|].
  intros H; inversion H; subst y.
  assert (Hpre : pre = rev q ++ [x]).
  { rewrite <- (rev_involutive pre), Hrev. reflexivity. }
  subst pre. rewrite length_app, length_rev. cbn [length].
  replace (length q + 1 - 1)%nat with (length (rev q) + 0)%nat
    by (rewrite length_rev; lia).
  rewrite <- app_assoc. rewrite nth_error_app2 by lia.
  replace (length (rev q) + 0 - length (rev q))%nat with O by lia.
  reflexivity.
Qed.

(** At offset 0, or just after a line break. *)
Definition starts_line (D : text) (offset : Z) : Prop :=
  offset = 0 \/ nth_error D (Z.to_nat (offset - 1)) = Some newline.

Lemma header_scan_starts_line (l : text) :
  forall pre skip,
    Forall (fun m => starts_line (pre ++ l) (h_start m))
           (header_scan (last_char pre) skip (length pre) l).
Proof.
  induction l as [|c r IH]; intros pre skip; [constructor|].
  assert (Hrec : forall skip',
             Forall (fun m => starts_line (pre ++ c :: r) (h_start m))
                    (header_scan (Some c) skip' (S (length pre)) r)).
  { intros skip'. specialize (IH (pre ++ [c]) skip').
    rewrite last_char_snoc, length_app, <- app_assoc in IH.
    cbn [length app] in IH.
    replace (length pre + 1)%nat with (S (length pre)) in IH by lia.
    exact IH. }
  cbn [header_scan]. destruct skip as [|s]; [|apply Hrec].
  destruct (if at_bol (last_char pre) then header_at (c :: r) else None)
    as [[[k n] w]|] eqn:Hm; [|apply Hrec].
  constructor; [|apply Hrec].
  cbn [h_start]. unfold starts_line.
  destruct (last_char pre) as [x|] eqn:Hlast.
  - right. cbn [at_bol] in Hm. destruct (is_nl x) eqn:Hx; [|discriminate].
    apply Ascii.eqb_eq in Hx. subst x.
    replace (Z.to_nat (Z.of_nat (length pre) - 1))
      with (length pre - 1)%nat by lia.
    apply last_char_nth. exact Hlast.
  - left. unfold last_char in Hlast.
    destruct pre as [|y pre']; [reflexivity|].
    cbn [rev] in Hlast. destruct (rev pre'); discriminate.
Qed.

Lemma header_finditer_starts_line (D : text) :
  Forall (fun m => starts_line D (h_start m)) (header_finditer D).
Proof. exact (header_scan_starts_line D [] O). Qed.

(** A text that begins with a header line has its first match at
    offset 0. *)
Lemma header_finditer_first_at_0 (D : text) :
  header_at D <> None ->
  exists m rest, header_finditer D = m :: rest /\ h_start m = 0.
Proof.
  intros Hsome. unfold header_finditer.
  destruct D as [|c r]; [exfalso; apply Hsome; reflexivity|].
  cbn [header_scan at_bol].
  destruct (header_at (c :: r)) as [[[k n] w]|]; [|congruence].
  eexists; eexists. split; reflexivity.
Qed.

(** ** Spans of the segmenter *)

(** [covers gap a b ss]: the spans [ss] run from [a] to [b] in order, none
    is reversed, and each one begins [gap] offsets after the previous one
    ends. With [gap = 0] the spans partition [a .. b). *)
Fixpoint covers (gap a b : Z) (ss : list Span) : Prop :=
  match ss with
  | [] => False
  | s :: rest =>
      span_begin s = a /\ a <= span_end s /\
      match rest with
      | [] => span_end s = b
      | _ :: _ => covers gap (span_end s + gap) b rest
      end
  end.

Definition precedes (s t : Span) : Prop := span_end s < span_begin t.

Definition in_bounds (n : Z) (s : Span) : Prop :=
  0 <= span_begin s /\ span_begin s <= span_end s /\ span_end s <= n.

Lemma covers_bounds (gap : Z) (ss : list Span) :
  0 <= gap ->
  forall a b, covers gap a b ss ->
    a <= b /\ Forall (fun s => a <= span_begin s /\ span_end s <= b) ss.
Proof.
  intros Hgap. induction ss as [|s rest IH]; intros a b; [intros []|].
  cbn [covers]. intros (Hb & Hle & Hrest).
  destruct rest as [|t rest'].
  - subst. split; [lia|]. constructor; [lia|constructor].
  - apply IH in Hrest as [Hab Hall]. split; [lia|].
    constructor; [lia|].
    eapply Forall_impl; [|exact Hall]. cbv beta. intros u [H1 H2]. lia.
Qed.

Lemma covers_in_bounds (gap : Z) (ss : list Span) :
  0 <= gap ->
  forall a b, 0 <= a -> covers gap a b ss -> Forall (in_bounds b) ss.
Proof.
  intros Hgap. induction ss as [|s rest IH]; intros a b Ha; [intros []|].
  intros Hc. pose proof (covers_bounds gap (s :: rest) Hgap a b Hc) as [_ Hall].
  cbn [covers] in Hc. destruct Hc as (Hb & Hle & Hrest).
  constructor.
  - inversion Hall; subst. unfold in_bounds. lia.
  - destruct rest as [|t rest']; [constructor|].
    apply (IH (span_end s + gap) b); [lia | exact Hrest].
Qed.

Lemma covers_sorted (ss : list Span) :
  forall a b, covers 1 a b ss -> StronglySorted precedes ss.
Proof.
  induction ss as [|s rest IH]; intros a b; [intros []|].
  intros Hc. cbn [covers] in Hc. destruct Hc as (Hb & Hle & Hrest).
  destruct rest as [|t rest'].
  - constructor; constructor.
  - constructor; [eapply IH; exact Hrest|].
    apply covers_bounds in Hrest as [_ Hall]; [|lia].
    eapply Forall_impl; [|exact Hall]. cbv beta. unfold precedes.
    intros u [H1 H2]. lia.
Qed.

Lemma sections_loop_covers (source : text) (ms : list header_match) :
  forall lo m rest,
    ms = m :: rest ->
    headers_chain lo (len source) ms ->
    covers 1 (h_start m) (len source) (spans (sections_loop source ms)).
Proof.
  induction ms as [|m0 rest0 IH]; intros lo m rest Heq Hch; [discriminate|].
  inversion Heq; subst m0 rest0. clear Heq.
  cbn [headers_chain] in Hch. destruct Hch as (H1 & H2 & H3 & H4).
  cbn [sections_loop spans map span span_begin span_end covers].
  split; [reflexivity|].
  destruct rest as [|m' rest'].
  - cbn [body_end_before sections_loop map]. split; [lia | reflexivity].
  - cbn [headers_chain] in H4. destruct H4 as (H5 & H6 & H7 & H8).
    cbn [body_end_before]. split; [lia|].
    assert (Hc : covers 1 (h_start m') (len source)
                        (spans (sections_loop source (m' :: rest')))).
    { apply (IH (h_end m) m' rest' eq_refl). cbn [headers_chain].
      repeat split; assumption. }
    replace (h_start m' - 1 + 1) with (h_start m') by lia.
    cbn [sections_loop spans map] in Hc |- *. exact Hc.
Qed.

(** The document of the counterexample: a preamble line, a header line and
    one line of body. *)
Definition doc_gap : text :=
  T "a" ++ [newline] ++ T "=h=" ++ [newline] ++ T "b".

(** C1, as stated, fails: on [doc_gap] the segmenter yields the spans
    (0, 1) and (2, 7), so offset 1, the line break before the header, is in
    no span and the spans do not partition [0 .. 7). *)
Lemma sections_partition_counterexample :
  spans (sections doc_gap true) = [mkSpan 0 1; mkSpan 2 7]
  /\ ~ covers 0 0 (len doc_gap) (spans (sections doc_gap true)).
Proof.
  split; [reflexivity|].
  vm_compute. intros (_ & _ & H & _). discriminate H.
Qed.

Lemma sections_true_covers (D : text) :
  header_at D = None ->
  covers 1 0 (len D) (spans (sections D true)).
Proof.
  intros Hnone.
  pose proof (header_finditer_chain_from_1 D Hnone) as Hch.
  unfold sections. destruct (header_finditer D) as [|m rest] eqn:Hms.
  - cbn. repeat split; unfold len; lia.
  - cbn [body_end_before app spans map span span_begin span_end covers].
    pose proof Hch as Hch'.
    cbn [headers_chain] in Hch'. destruct Hch' as (H1 & _).
    split; [reflexivity|]. split; [lia|].
    pose proof (sections_loop_covers D (m :: rest) 1 m rest eq_refl Hch)
      as Hl.
    replace (h_start m - 1 + 1) with (h_start m) by lia.
    cbn [sections_loop spans map] in Hl |- *. exact Hl.
Qed.

Lemma sections_loop_begins (D : text) (ms : list header_match) :
  map span_begin (spans (sections_loop D ms)) = map h_start ms.
Proof.
  induction ms as [|m rest IH]; [reflexivity|].
  cbn [sections_loop spans map span span_begin] in IH |- *.
  f_equal. exact IH.
Qed.

Lemma sections_true_start_lines (D : text) :
  Forall (fun s => starts_line D (span_begin s)) (spans (sections D true)).
Proof.
  unfold sections. cbn [app spans map span]. constructor; [left; reflexivity|].
  pose proof (header_finditer_starts_line D) as H.
  apply Forall_map with (f := span_begin) (P := starts_line D).
  apply Forall_map with (f := h_start) (P := starts_line D) in H.
  rewrite <- sections_loop_begins with (D := D) in H. exact H.
Qed.

(** C1 (amended): for every document that does not begin with a header
    line, the spans yielded by [sections(D, include_preamble=True)] start at
    0, end at [len(D)], are never reversed, and each span begins exactly one
    offset after the previous one ends, that offset holding the line break
    before the header; hence they are in document order and pairwise
    disjoint. *)
Theorem sections_spans_cover_with_line_breaks (D : text) :
  header_at D = None ->
  covers 1 0 (len D) (spans (sections D true))
  /\ StronglySorted precedes (spans (sections D true))
  /\ Forall (fun s => starts_line D (span_begin s)) (spans (sections D true)).
Proof.
  intros Hnone. pose proof (sections_true_covers D Hnone) as Hc.
  split; [exact Hc|].
  split; [eapply covers_sorted; exact Hc | apply sections_true_start_lines].
Qed.

Lemma sections_spans_cover_with_line_breaks_witness :
  header_at doc_gap = None
  /\ covers 1 0 (len doc_gap) (spans (sections doc_gap true))
  /\ StronglySorted precedes (spans (sections doc_gap true))
  /\ Forall (fun s => starts_line doc_gap (span_begin s))
            (spans (sections doc_gap true)).
Proof.
  split; [reflexivity|].
  apply (sections_spans_cover_with_line_breaks doc_gap). reflexivity.
Defined.

(** Away from the case of a document that begins with a header line, every
    span of the segmenter is well formed. *)
Lemma sections_spans_in_bounds (D : text) :
  header_at D = None ->
  Forall (in_bounds (len D)) (spans (sections D true)).
Proof.
  intros Hnone. pose proof (sections_true_covers D Hnone) as Hc.
  eapply covers_in_bounds; [| |exact Hc]; lia.
Qed.

(** A document that begins with a header line gets the preamble span
    (0, -1). *)
Lemma sections_preamble_reversed (D : text) :
  header_at D <> None ->
  hd_error (spans (sections D true)) = Some (mkSpan 0 (-1)).
Proof.
  intros Hsome.
  destruct (header_finditer_first_at_0 D Hsome) as (m & rest & Hms & H0).
  unfold sections. rewrite Hms. cbn. rewrite H0. reflexivity.
Qed.

(** C6: on the document ["=a="], whose first line is a header, the
    segmenter computes [body_end = 0 - 1]: the preamble is yielded with the
    span (0, -1), whose end is below its begin, and with the body
    [source[:-1]], the header line less its last character. *)
Theorem sections_header_first_reversed_span :
  sections (T "=a=") true =
    [ mkCapture (Section_init [] 0 (T "=a")) (mkSpan 0 (-1));
      mkCapture (Section_init (T "a") 1 []) (mkSpan 0 3) ]
  /\ ~ Forall (in_bounds (len (T "=a="))) (spans (sections (T "=a=") true)).
Proof.
  split; [reflexivity|].
  intros H. vm_compute in H. inversion H as [|s l Hs _]; subst.
  destruct Hs as (_ & Hle & _). vm_compute in Hle. apply Hle. reflexivity.
Qed.

(** ** The memoised [full_body] *)

(** The values returned by [n] successive reads of [s.full_body]. *)
Fixpoint full_body_reads (n : nat) (s : Section_) : list text :=
  match n with
  | O => []
  | S n' => let '(v, s') := full_body s in v :: full_body_reads n' s'
  end.

(** [body] below a header line made of [level] equals signs around
    [name]. *)
Definition wrapped (name : text) (level : Z) (body : text) : text :=
  repeat "="%char (Z.to_nat level) ++ name
  ++ repeat "="%char (Z.to_nat level) ++ [newline] ++ body.

Lemma full_body_cached (s : Section_) (v : text) :
  _full_body s = Some v -> forall n, full_body_reads n s = repeat v n.
Proof.
  intros Hc n; induction n as [|n IH]; [reflexivity|].
  cbn [full_body_reads repeat]. unfold full_body. rewrite Hc.
  f_equal. exact IH.
Qed.

(** C10: for a section of level at least 1, [full_body] is the body below
    the header line rebuilt from [level] equals signs and the name, and any
    number of successive reads return that same string; after the first
    read the value sits in the memo slot. *)
Theorem full_body_wrap_stable (name : text) (level : Z) (body : text)
        (n : nat) :
  1 <= level ->
  let s := Section_init name level body in
  fst (full_body s) = wrapped name level body
  /\ _full_body (snd (full_body s)) = Some (wrapped name level body)
  /\ full_body_reads n s = repeat (wrapped name level body) n.
Proof.
  intros Hlevel s.
  assert (Hfb : full_body s =
                (wrapped name level body,
                 mkSection name level body (Some (wrapped name level body)))).
  { unfold full_body, s, Section_init, is_preamble. cbn.
    destruct (level =? 0) eqn:H0; [apply Z.eqb_eq in H0; lia|].
    reflexivity. }
  rewrite Hfb. cbn [fst snd _full_body].
  repeat split.
  destruct n as [|n]; [reflexivity|].
  cbn [full_body_reads repeat]. rewrite Hfb. f_equal.
  apply full_body_cached. reflexivity.
Qed.

Lemma full_body_wrap_stable_witness :
  1 <= 2
  /\ fst (full_body (Section_init (T "History") 2 (T "text"))) =
     T "==History==" ++ [newline] ++ T "text"
  /\ full_body_reads 3 (Section_init (T "History") 2 (T "text")) =
     repeat (T "==History==" ++ [newline] ++ T "text") 3.
Proof.
  split; [lia|].
  destruct (full_body_wrap_stable (T "History") 2 (T "text") 3)
    as (H1 & _ & H3); [lia|].
  split; [exact H1 | exact H3].
Defined.

(** ** Section attribution *)

(** The owner of a match found by a scan of the whole list, from its first
    section: (number, name, level). *)
Definition owner (limits : list SectionLimits) (total_start : Z)
  : Z * text * Z :=
  match first_containing limits total_start with
  | Some s => (sl_number s, sl_name s, sl_level s)
  | None => (0, incipit, 0)
  end.

(** The owners the loop assigns to successive matches: [last_section_seen]
    is threaded from one match to the next, as [on_match] does. *)
Fixpoint attribute_all (limits : list SectionLimits) (seen : Z)
         (starts : list Z) : list (Z * text * Z) :=
  match starts with
  | [] => []
  | t :: rest =>
      let '(number, name, level, seen') := attribute limits seen t in
      (number, name, level) :: attribute_all limits seen' rest
  end.

(** [on_match] attributes with [attribute]: the section fields of what it
    yields and the [last_section_seen] it leaves are those computed from
    the [last_section_seen] it found and the start of the [total] group. *)
Lemma on_match_attribution (page_title source : text)
      (limits : list SectionLimits) (st : loop_state) (m : wikilink_match) :
  let '(number, name, level, seen) :=
    attribute limits (last_section_seen st) (w_total_start m) in
  last_section_seen (snd (on_match page_title source limits st m)) = seen
  /\ forall r, fst (on_match page_title source limits st m) = Yielded r ->
       (section_number (data r), section_name (data r),
        section_level (data r)) = (number, name, level).
Proof.
  unfold on_match.
  destruct (resolve page_title m) as [[rlink rsection] ranchor].
  destruct (attribute limits (last_section_seen st) (w_total_start m))
    as [[[number sname] slevel] seen].
  destruct (negb (Py.nonempty rlink)); cbn.
  - split; [reflexivity | discriminate].
  - split; [reflexivity|]. intros r H. inversion H; subst. reflexivity.
Qed.

(** Numbered from [idx], starting no earlier than [lo], never reversed, and
    each section beginning after the previous one ends. *)
Fixpoint limits_chain (idx lo : Z) (ls : list SectionLimits) : Prop :=
  match ls with
  | [] => True
  | s :: rest =>
      sl_number s = idx /\ lo <= sl_begin s /\ sl_begin s <= sl_end s
      /\ limits_chain (idx + 1) (sl_end s + 1) rest
  end.

Lemma slice_from_skipn {A} (l : list A) (k : Z) :
  0 <= k -> Py.slice_from l k = skipn (Z.to_nat k) l.
Proof.
  intros Hk. unfold Py.slice_from, Py.slice, Py.norm_index.
  destruct (k <? 0) eqn:Hk0; [apply Z.ltb_lt in Hk0; lia|].
  destruct (Z.of_nat (length l) <? 0) eqn:Hn0; [apply Z.ltb_lt in Hn0; lia|].
  rewrite Z.min_id.
  destruct (Z.le_gt_cases k (Z.of_nat (length l))) as [Hle|Hgt].
  - rewrite Z.min_l by lia. apply firstn_all2. rewrite length_skipn. lia.
  - rewrite Z.min_r by lia. rewrite Z.sub_diag. cbn [Z.to_nat firstn].
    symmetry. apply skipn_all2. lia.
Qed.

Lemma limits_chain_begin (ls : list SectionLimits) :
  forall idx lo, limits_chain idx lo ls ->
    Forall (fun s => lo <= sl_begin s) ls.
Proof.
  induction ls as [|s rest IH]; intros idx lo; [constructor|].
  cbn [limits_chain]. intros (Hn & Hlo & Hbe & Hrest). constructor; [lia|].
  apply IH in Hrest. eapply Forall_impl; [|exact Hrest].
  cbv beta. intros u Hu. lia.
Qed.

Lemma first_containing_before (ls : list SectionLimits) (t : Z) :
  Forall (fun s => t < sl_begin s) ls -> first_containing ls t = None.
Proof.
  induction 1 as [|s rest Hs _ IH]; [reflexivity|].
  cbn [first_containing].
  destruct (sl_begin s <=? t) eqn:Hb; [apply Z.leb_le in Hb; lia|].
  exact IH.
Qed.

(** Sections that end before [t] can be skipped by the scan. *)
Lemma first_containing_skip (ls : list SectionLimits) (t : Z) :
  forall k, Forall (fun s => sl_end s < t) (firstn k ls) ->
    first_containing (skipn k ls) t = first_containing ls t.
Proof.
  induction ls as [|s rest IH]; intros [|k]; try reflexivity.
  cbn [firstn skipn first_containing]. intros H. inversion H; subst.
  destruct (t <=? sl_end s) eqn:He; [apply Z.leb_le in He; lia|].
  rewrite andb_false_r. apply IH. assumption.
Qed.

(** In a chain, the section found is the one at position [number - idx],
    and everything before it ends before it begins. *)
Lemma first_containing_chain (ls : list SectionLimits) (t : Z) :
  forall idx lo s, limits_chain idx lo ls ->
    first_containing ls t = Some s ->
    idx <= sl_number s /\ sl_begin s <= t
    /\ Forall (fun u => sl_end u < sl_begin s)
              (firstn (Z.to_nat (sl_number s - idx)) ls).
Proof.
  induction ls as [|u rest IH]; intros idx lo s; [discriminate|].
  cbn [limits_chain first_containing].
  intros (Hn & Hlo & Hbe & Hrest).
  destruct ((sl_begin u <=? t) && (t <=? sl_end u)) eqn:Hin.
  - intros H; inversion H; subst u. apply andb_true_iff in Hin as [Hb _].
    apply Z.leb_le in Hb. rewrite Hn, Z.sub_diag. cbn [Z.to_nat firstn].
    repeat split; try lia. constructor.
  - intros Hf. pose proof (IH _ _ _ Hrest Hf) as (Hidx & Hbt & Hall).
    pose proof (limits_chain_begin _ _ _ Hrest) as Hbeg.
    assert (Hs : sl_end u + 1 <= sl_begin s).
    { clear - Hf Hbeg. induction rest as [|v rest IH]; [discriminate|].
      cbn [first_containing] in Hf. inversion Hbeg; subst.
      destruct ((sl_begin v <=? t) && (t <=? sl_end v)).
      - inversion Hf; subst. assumption.
      - apply IH; assumption. }
    replace (Z.to_nat (sl_number s - idx))
      with (S (Z.to_nat (sl_number s - (idx + 1)))) by lia.
    cbn [firstn]. repeat split; try lia.
    constructor; [lia | exact Hall].
Qed.

(** The section at position [k] of a chain is the one the full scan finds
    for every offset within its limits. *)
Lemma first_containing_nth (ls : list SectionLimits) (t : Z) :
  forall idx lo k s, limits_chain idx lo ls ->
    nth_error ls k = Some s ->
    sl_begin s <= t <= sl_end s ->
    first_containing ls t = Some s /\ sl_number s = idx + Z.of_nat k.
Proof.
  induction ls as [|u rest IH]; intros idx lo k s Hch Hnth Hin;
    [destruct k; discriminate|].
  cbn [limits_chain] in Hch. destruct Hch as (Hn & Hlo & Hbe & Hrest).
  destruct k as [|k]; cbn [nth_error] in Hnth.
  - inversion Hnth; subst u. cbn [first_containing].
    destruct (sl_begin s <=? t) eqn:Hb; [|apply Z.leb_gt in Hb; lia].
    destruct (t <=? sl_end s) eqn:He; [|apply Z.leb_gt in He; lia].
    split; [reflexivity | lia].
  - destruct (IH _ _ _ _ Hrest Hnth Hin) as [Hf Hnum].
    pose proof (limits_chain_begin _ _ _ Hrest) as Hbeg.
    assert (Hs : sl_end u + 1 <= sl_begin s).
    { apply nth_error_In in Hnth. rewrite Forall_forall in Hbeg.
      apply Hbeg. exact Hnth. }
    cbn [first_containing].
    destruct (t <=? sl_end u) eqn:He; [apply Z.leb_le in He; lia|].
    rewrite andb_false_r. split; [exact Hf | lia].
Qed.

(** The resumed scans agree with scans of the whole list when the matches
    come in non-decreasing order. [lo] bounds the coming offsets from
    below; the sections before [seen] all end before [lo]. *)
Lemma attribute_all_owner (limits : list SectionLimits) (lo0 : Z) :
  limits_chain 1 lo0 limits ->
  forall starts lo seen,
    0 <= seen ->
    Forall (fun s => sl_end s < lo) (firstn (Z.to_nat seen) limits) ->
    HdRel Z.le lo starts ->
    Sorted Z.le starts ->
    attribute_all limits seen starts = map (owner limits) starts.
Proof.
  intros Hch. induction starts as [|t rest IH]; intros lo seen Hseen Hinv Hhd Hs;
    [reflexivity|].
  inversion Hhd as [|? ? Hlo]; subst. inversion Hs as [|? ? Hs' Hhd']; subst.
  cbn [attribute_all map]. unfold attribute, owner.
  rewrite slice_from_skipn by exact Hseen.
  rewrite first_containing_skip.
  2:{ eapply Forall_impl; [|exact Hinv]. cbv beta. intros u Hu. lia. }
  destruct (first_containing limits t) as [s|] eqn:Hf.
  - destruct (first_containing_chain _ _ _ _ _ Hch Hf) as (Hnum & Hbt & Hall).
    destruct (sl_number s >? 0) eqn:Hpos;
      [|rewrite Z.gtb_ltb in Hpos; apply Z.ltb_ge in Hpos; lia].
    f_equal. apply (IH t); try assumption; [lia|].
    eapply Forall_impl; [|exact Hall]. cbv beta. intros u Hu. lia.
  - f_equal. apply (IH t); try assumption.
    eapply Forall_impl; [|exact Hinv]. cbv beta. intros u Hu. lia.
Qed.

Lemma headers_chain_tighten (lo hi : Z) (m : header_match)
      (rest : list header_match) :
  headers_chain lo hi (m :: rest) -> headers_chain (h_start m) hi (m :: rest).
Proof.
  cbn [headers_chain]. intros (H1 & H2 & H3 & H4).
  repeat split; try assumption; lia.
Qed.

(** The limits built from the header sections of a document form a
    chain. *)
Lemma sections_limits_chain (D : text) (ms : list header_match) :
  forall idx lo,
    headers_chain lo (len D) ms ->
    limits_chain idx lo (enumerate_limits idx (sections_loop D ms)).
Proof.
  induction ms as [|m rest IH]; intros idx lo Hch; [exact I|].
  pose proof Hch as Hch0.
  cbn [headers_chain] in Hch. destruct Hch as (H1 & H2 & H3 & H4).
  cbn [sections_loop enumerate_limits limits_chain data span
       sl_number sl_begin sl_end span_begin span_end].
  destruct rest as [|m' rest'].
  - cbn [body_end_before]. repeat split; try lia.
  - pose proof H4 as H4'.
    cbn [headers_chain] in H4'. destruct H4' as (H5 & H6 & H7 & H8).
    cbn [body_end_before].
    split; [reflexivity|]. split; [lia|]. split; [lia|].
    apply IH. replace (h_start m' - 1 + 1) with (h_start m') by lia.
    eapply headers_chain_tighten. exact H4.
Qed.

(** The document of the attribution example: a preamble line and two
    header sections. *)
Definition doc_two : text :=
  T "a" ++ [newline] ++ T "=h=" ++ [newline] ++ T "b" ++ [newline]
  ++ T "=k=" ++ [newline] ++ T "c".

(** X19: the attribution scan on offsets into the source. For every
    document, with the limits of its header sections and offsets that come
    in non-decreasing order, the scans resumed from [last_section_seen]
    assign to each offset the owner a scan of the whole list would; an
    offset before the first header gets the incipit sentinel, number 0;
    and an offset within the limits of the section at position [k]
    (counted from 0) gets that section, number [k + 1]. *)
Theorem attribution_by_position (D : text) (starts : list Z) :
  Sorted Z.le starts ->
  let limits := sections_limits_of (sections D false) in
  attribute_all limits 0 starts = map (owner limits) starts
  /\ (forall t,
        (forall h, hd_error (header_finditer D) = Some h -> t < h_start h) ->
        owner limits t = (0, incipit, 0))
  /\ (forall t k s,
        nth_error limits k = Some s ->
        sl_begin s <= t <= sl_end s ->
        owner limits t = (Z.of_nat k + 1, sl_name s, sl_level s)).
Proof.
  intros Hsorted limits.
  assert (Hch : forall lo, headers_chain lo (len D) (header_finditer D) ->
                           limits_chain 1 lo limits).
  { intros lo H. unfold limits, sections_limits_of, sections. cbn [app].
    apply sections_limits_chain. exact H. }
  pose proof (Hch 0 (header_finditer_chain D)) as Hch0.
  split; [|split].
  - destruct starts as [|t rest]; [reflexivity|].
    apply (attribute_all_owner limits 0 Hch0 (t :: rest) t 0);
      try assumption; try lia.
    + constructor.
    + constructor. lia.
  - intros t Hbefore. unfold owner.
    destruct (header_finditer D) as [|h hs] eqn:Hms.
    + unfold limits, sections_limits_of, sections. rewrite Hms. reflexivity.
    + specialize (Hbefore h eq_refl).
      assert (Hc : limits_chain 1 (h_start h) limits).
      { apply Hch. eapply headers_chain_tighten.
        rewrite <- Hms. apply header_finditer_chain. }
      rewrite first_containing_before; [reflexivity|].
      apply limits_chain_begin in Hc. eapply Forall_impl; [|exact Hc].
      cbv beta. intros u Hu. lia.
  - intros t k s Hnth Hin. unfold owner.
    destruct (first_containing_nth limits t 1 0 k s Hch0 Hnth Hin) as [Hf Hn].
    rewrite Hf, Hn. f_equal. f_equal. lia.
Qed.

Lemma attribution_by_position_witness :
  Sorted Z.le [0; 3; 9; 12]
  /\ attribute_all (sections_limits_of (sections doc_two false)) 0
                   [0; 3; 9; 12]
     = [(0, incipit, 0); (1, T "h", 1); (2, T "k", 1); (2, T "k", 1)].
Proof.
  assert (Hs : Sorted Z.le [0; 3; 9; 12])
    by (repeat constructor; apply Z.leb_le; reflexivity).
  split; [exact Hs|].
  destruct (attribution_by_position doc_two [0; 3; 9; 12] Hs) as [H _].
  rewrite H. reflexivity.
Defined.

(** ** The wikilink extractor *)

(** The left boundary is never computed: whatever the text and the
    offsets, reading or deleting the unassigned [revtext] raises. *)
Lemma widen_left_raises (source : text) (prevmatch_start simple_start : Z) :
  widen_left source None prevmatch_start simple_start
  = inl (UnboundLocalError "revtext").
Proof.
  unfold widen_left.
  destruct (space_rtl_search (Py.slice source prevmatch_start simple_start));
    reflexivity.
Qed.

(** Hence the generator yields nothing: it ends normally on a text without
    candidates and raises on the first candidate otherwise. *)
Lemma wikilinks_trace (page_title source : text)
      (secs : list (CaptureResult Section_)) :
  wikilinks page_title source secs =
    mkTrace [] (match simple_finditer source with
                | [] => None
                | _ :: _ => Some (UnboundLocalError "revtext")
                end).
Proof.
  unfold wikilinks. destruct (simple_finditer source) as [|c rest];
    [reflexivity|].
  cbn [wikilinks_loop]. rewrite widen_left_raises. reflexivity.
Qed.

(** C2: on ["a [[b]]"] the candidate starts at offset 2 and a whitespace
    character precedes it at offset 1, so the left boundary should be 2;
    the computation raises instead, and so does the generator before it
    yields anything. On ["[[b]]"], where no whitespace precedes the
    candidate, it raises as well. *)
Theorem left_boundary_raises :
  simple_finditer (T "a [[b]]") = [mkSimple 2 7 (T "[[b]]")]
  /\ space_rtl_search (Py.slice (T "a [[b]]") 0 2) = Some 1
  /\ widen_left (T "a [[b]]") None 0 2 = inl (UnboundLocalError "revtext")
  /\ wikilinks (T "P") (T "a [[b]]") (sections (T "a [[b]]") false)
     = mkTrace [] (Some (UnboundLocalError "revtext"))
  /\ widen_left (T "[[b]]") None 0 0 = inl (UnboundLocalError "revtext")
  /\ wikilinks (T "P") (T "[[b]]") (sections (T "[[b]]") false)
     = mkTrace [] (Some (UnboundLocalError "revtext")).
Proof. repeat split; reflexivity. Qed.

Definition start_state : loop_state := mkState 0 0 0.

(** C3: on ["[[apple]]s"] the generator raises before resolving the
    candidate. The steps after the window, run on the whole text as the
    window, build the [Wikilink] before the affixes are attached: the
    result carries the anchor ["apple"], while the string ["apples"] is
    computed afterwards and not used. The right boundary computed by the
    code is 9, which already leaves the trailing ["s"] out. *)
Theorem apple_suffix_not_in_anchor :
  let source := T "[[apple]]s" in
  let simple := mkSimple 0 9 (T "[[apple]]") in
  simple_finditer source = [simple]
  /\ wikilinks (T "Fruit") source (sections source false)
     = mkTrace [] (Some (UnboundLocalError "revtext"))
  /\ widen_right source 9 = 9
  /\ (exists r st,
        on_window (T "Fruit") source [] start_state simple 0 10
        = (Yielded r, st)
        /\ link (data r) = T "apple"
        /\ anchor (data r) = T "apple"
        /\ span r = mkSpan 0 10)
  /\ (exists m,
        wikilink_search source = Some m
        /\ anchor_with_affixes source m (T "apple") = T "apples").
Proof.
  cbv zeta. repeat split; try reflexivity.
  - eexists; eexists. repeat split; reflexivity.
  - eexists. split; reflexivity.
Qed.

(** C4: on ["x [[a]]"] the generator raises and yields no capture result.
    The steps after the window number the match from the start of the
    window, not of the source: with the window [2, 7) they yield the span
    (0, 5) and with the window [1, 7) the span (1, 6), and the source read
    at either span is not the matched text ["[[a]]"], which lies at
    (2, 7). *)
Theorem wikilink_span_window_relative :
  let source := T "x [[a]]" in
  let simple := mkSimple 2 7 (T "[[a]]") in
  simple_finditer source = [simple]
  /\ yields (actions (wikilinks (T "P") source (sections source false))) = []
  /\ raised (wikilinks (T "P") source (sections source false))
     = Some (UnboundLocalError "revtext")
  /\ (exists r st,
        on_window (T "P") source [] start_state simple 2 7 = (Yielded r, st)
        /\ span r = mkSpan 0 5
        /\ Py.slice source 0 5 = T "x [[a")
  /\ (exists r st,
        on_window (T "P") source [] start_state simple 1 7 = (Yielded r, st)
        /\ span r = mkSpan 1 6
        /\ Py.slice source 1 6 = T " [[a]")
  /\ Py.slice source 2 7 = T "[[a]]".
Proof.
  cbv zeta. repeat split; try reflexivity.
  - eexists; eexists. repeat split; reflexivity.
  - eexists; eexists. repeat split; reflexivity.
Qed.

(** The document of the attribution example: a preamble line, a header
    line, and a body line with one link. *)
Definition doc_link : text :=
  T "a" ++ [newline] ++ T "=h=" ++ [newline] ++ T "b [[x]]".

(** C9: in [doc_link] the link starts at offset 8, within the limits
    (2, 13) of section 1, and the attribution scan run on that offset
    answers section 1. The generator raises before it attributes
    anything; and the steps after the window attribute the start of the
    [total] group counted from the window, 0 for the window [8, 13) and 1
    for the window [7, 13), which lies before the section: the link is
    yielded with the incipit sentinel, section number 0. *)
Theorem link_in_section_attributed_to_incipit :
  let limits := sections_limits_of (sections doc_link false) in
  let simple := mkSimple 8 13 (T "[[x]]") in
  limits = [mkLimits (T "h") 1 1 2 13]
  /\ simple_finditer doc_link = [simple]
  /\ attribute limits 0 8 = (1, T "h", 1, 0)
  /\ wikilinks (T "P") doc_link (sections doc_link false)
     = mkTrace [] (Some (UnboundLocalError "revtext"))
  /\ (exists r st,
        on_window (T "P") doc_link limits start_state simple 8 13
        = (Yielded r, st)
        /\ span r = mkSpan 0 5
        /\ section_number (data r) = 0
        /\ section_name (data r) = incipit)
  /\ (exists r st,
        on_window (T "P") doc_link limits start_state simple 7 13
        = (Yielded r, st)
        /\ span r = mkSpan 1 6
        /\ section_number (data r) = 0
        /\ section_name (data r) = incipit).
Proof.
  cbv zeta. repeat split; try reflexivity.
  - eexists; eexists. repeat split; reflexivity.
  - eexists; eexists. repeat split; reflexivity.
Qed.

(** ** Grammar mismatch *)

(** One of [| < > { }] occurs in the text. *)
Definition has_special (t : text) : bool :=
  existsb (fun c => Py.mem c (T "|<>{}")) t.

Lemma find_from_positive (c : ascii) (s : text) :
  forall i, 0 < i -> Py.find_from c s i <> 0.
Proof.
  induction s as [|d r IH]; intros i Hi; cbn [Py.find_from]; [lia|].
  destruct (Ascii.eqb d c); [lia | apply IH; lia].
Qed.

(** [str.find] answers 0 only for a needle at the very start and -1 for a
    missing one, and the text cannot start with both ['|'] and ['>']: the
    condition of the mismatch branch holds for every text. *)
Lemma mismatch_test_true (t : text) : mismatch_test t = true.
Proof.
  unfold mismatch_test, Py.find, Py.truthy.
  destruct t as [|c r]; [reflexivity|].
  cbn [Py.find_from].
  destruct (Ascii.eqb c "|"%char) eqn:Hpipe.
  - apply Ascii.eqb_eq in Hpipe. subst c.
    cbn [Ascii.eqb Bool.eqb]. cbn.
    pose proof (find_from_positive ">"%char r 1 ltac:(lia)) as Hne.
    apply Z.eqb_neq in Hne. rewrite Hne. reflexivity.
  - pose proof (find_from_positive "|"%char r (0 + 1) ltac:(lia)) as Hne.
    apply Z.eqb_neq in Hne. rewrite Hne. reflexivity.
Qed.

Lemma on_mismatch_skips (group0 : text) : on_mismatch group0 = Skipped.
Proof. unfold on_mismatch. rewrite mismatch_test_true. reflexivity. Qed.

(** C5 as stated, for one candidate and its window: when the grammar does
    not match the window, the candidate is skipped exactly when its raw
    contents hold one of [| < > { }]. *)
Definition mismatch_skips_iff_markup (page_title source : text)
           (limits : list SectionLimits) (st : loop_state)
           (simple : simple_match) (lo hi : Z) : Prop :=
  wikilink_search (Py.slice source lo hi) = None ->
  (fst (on_window page_title source limits st simple lo hi) = Skipped
   <-> has_special (simple_match_text (s_group0 simple)) = true).

(** A link of 257 letters: one more than the grammar allows. *)
Definition long_link : text := T "[[" ++ repeat "a"%char 257 ++ T "]]".

(** C5: [long_link] is a coarse candidate that the grammar does not match
    on its window and that holds none of [| < > { }]. Each of the five
    [str.find] calls answers -1, which counts as true, so the test of the
    mismatch branch holds and the candidate is skipped like templated
    markup: the branch meant for it, the one that stops in the debugger,
    is not taken, and nothing is reported. *)
Theorem mismatch_without_markup_skipped :
  let simple := mkSimple 0 261 long_link in
  simple_finditer long_link = [simple]
  /\ wikilink_search (Py.slice long_link 0 261) = None
  /\ has_special (simple_match_text long_link) = false
  /\ map (Py.find (simple_match_text long_link)) (T "|><{}")
     = [-1; -1; -1; -1; -1]
  /\ mismatch_test (simple_match_text long_link) = true
  /\ on_window (T "P") long_link [] start_state simple 0 261
     = (Skipped, start_state)
  /\ ~ mismatch_skips_iff_markup (T "P") long_link [] start_state simple
         0 261.
Proof.
  cbv zeta.
  assert (Hnone : wikilink_search (Py.slice long_link 0 261) = None)
    by (vm_compute; reflexivity).
  assert (Hs : on_window (T "P") long_link [] start_state
                         (mkSimple 0 261 long_link) 0 261
               = (Skipped, start_state))
    by (vm_compute; reflexivity).
  repeat split; try (vm_compute; reflexivity).
  unfold mismatch_skips_iff_markup. intros H.
  destruct (H Hnone) as [Hskip _]. rewrite Hs in Hskip.
  specialize (Hskip eq_refl). vm_compute in Hskip. discriminate Hskip.
Qed.

(** ** Dropped candidates *)

(** C8 as stated, for one match: the candidate is dropped exactly when the
    resolved link and the resolved anchor are both empty. *)
Definition drops_iff_both_empty (page_title source : text)
           (limits : list SectionLimits) (st : loop_state)
           (m : wikilink_match) : Prop :=
  fst (on_match page_title source limits st m) = Skipped
  <-> (let '(link, _, anchor) := resolve page_title m in
       link = [] /\ anchor = []).

(** The match of the grammar on ["[[|yoda]]"]. *)
Definition yoda_match : wikilink_match :=
  mkWikilinkMatch 0 0 0 [] (Some (T "yoda")) 9 9 9.

(** C8, as stated, fails: ["[[|yoda]]"] resolves to an empty link and the
    anchor ["yoda"], and it is dropped. *)
Lemma empty_link_counterexample :
  wikilink_search (T "[[|yoda]]") = Some yoda_match
  /\ resolve (T "P") yoda_match = ([], [], T "yoda")
  /\ ~ drops_iff_both_empty (T "P") (T "[[|yoda]]") [] start_state yoda_match.
Proof.
  split; [reflexivity|]. split; [reflexivity|].
  unfold drops_iff_both_empty. intros [H _].
  assert (Hs : fst (on_match (T "P") (T "[[|yoda]]") [] start_state
                             yoda_match) = Skipped) by reflexivity.
  specialize (H Hs). vm_compute in H. destruct H as [_ H]. discriminate H.
Qed.

(** C8 (amended): a matched candidate is dropped exactly when the resolved
    link is empty after trimming and the section split, whatever the
    anchor; otherwise it is yielded with the resolved link, section and
    anchor and the offsets of the [total] group. *)
Theorem dropped_iff_link_empty (page_title source : text)
        (limits : list SectionLimits) (st : loop_state)
        (m : wikilink_match) :
  let '(rlink, rsection, ranchor) := resolve page_title m in
  match fst (on_match page_title source limits st m) with
  | Skipped => rlink = []
  | Yielded r =>
      rlink <> [] /\ link (data r) = rlink /\ tosection (data r) = rsection
      /\ anchor (data r) = ranchor
      /\ span r = mkSpan (w_total_start m) (w_total_end m)
  | Breakpoint => False
  end.
Proof.
  unfold on_match.
  destruct (resolve page_title m) as [[rlink rsection] ranchor].
  destruct (attribute limits (last_section_seen st) (w_total_start m))
    as [[[number sname] slevel] seen].
  destruct rlink as [|c r]; cbn.
  - reflexivity.
  - repeat split. discriminate.
Qed.

(** ** The bounded call *)

Import Timeout.

Definition or_empty {X} (o : option (list X)) : list X :=
  match o with None => [] | Some l => l end.




(** A wrapped function that raises an exception of its own leaves the
    alarm armed: [signal.alarm(0)] is not reached. *)
Lemma wrap_timeout_raise_keeps_alarm {A K V : Type}
      (func : list A -> list (string * K) -> event V) (timeout : Z)
      (args : option (list A)) (kwargs : option (list (string * K)))
      (st : signals) (what : string) :
  func (or_empty args) (or_empty kwargs) = Raises what ->
  wrap_timeout func timeout args kwargs st
  = (inl (OtherException what), mkSignals true timeout).
Proof.
  intros H. unfold wrap_timeout. fold (or_empty args) (or_empty kwargs).
  rewrite H. reflexivity.
Qed.


(** * Further properties of the module *)

(** ** Slices and runs *)

Lemma slice_firstn_skipn {A} (l : list A) (a b : nat) :
  (a <= b <= length l)%nat ->
  Py.slice l (Z.of_nat a) (Z.of_nat b) = firstn (b - a) (skipn a l).
Proof.
  intros H. unfold Py.slice, Py.norm_index.
  destruct (Z.of_nat a <? 0) eqn:Ha; [apply Z.ltb_lt in Ha; lia|].
  destruct (Z.of_nat b <? 0) eqn:Hb; [apply Z.ltb_lt in Hb; lia|].
  rewrite !Z.min_l by lia.
  replace (Z.to_nat (Z.of_nat b - Z.of_nat a)) with (b - a)%nat by lia.
  rewrite Nat2Z.id. reflexivity.
Qed.

Lemma firstn_plus {A} (l : list A) :
  forall a b, firstn (a + b) l = firstn a l ++ firstn b (skipn a l).
Proof.
  induction l as [|x l IH]; intros [|a] b; cbn [Nat.add firstn skipn app];
    try reflexivity.
  - destruct b; reflexivity.
  - f_equal. apply IH.
Qed.

Lemma slice_app {A} (l : list A) (a b c : nat) :
  (a <= b <= c)%nat -> (c <= length l)%nat ->
  Py.slice l (Z.of_nat a) (Z.of_nat c)
  = Py.slice l (Z.of_nat a) (Z.of_nat b)
    ++ Py.slice l (Z.of_nat b) (Z.of_nat c).
Proof.
  intros H Hc. rewrite !slice_firstn_skipn by lia.
  replace (c - a)%nat with ((b - a) + (c - b))%nat by lia.
  rewrite firstn_plus. f_equal. rewrite skipn_skipn.
  replace (b - a + a)%nat with b by lia. reflexivity.
Qed.

Lemma slice_whole {A} (l : list A) :
  Py.slice l 0 (Z.of_nat (length l)) = l.
Proof.
  change 0 with (Z.of_nat 0).
  rewrite (slice_firstn_skipn l 0 (length l)) by lia.
  cbn [skipn]. rewrite Nat.sub_0_r. apply firstn_all.
Qed.

Lemma firstn_run (p : ascii -> bool) (l : text) :
  forall j, (j <= run p l)%nat -> forallb p (firstn j l) = true.
Proof.
  induction l as [|c r IH]; intros j Hj; cbn [run] in Hj.
  - replace j with O by lia. reflexivity.
  - destruct j as [|j]; [reflexivity|]. cbn [firstn forallb].
    destruct (p c) eqn:Hp; [|lia]. cbn. apply IH. lia.
Qed.

Lemma firstn_run_equals (l : text) :
  forall j, (j <= run is_equals l)%nat -> firstn j l = repeat "="%char j.
Proof.
  induction l as [|c r IH]; intros j Hj; cbn [run] in Hj.
  - replace j with O by lia. reflexivity.
  - destruct j as [|j]; [reflexivity|]. cbn [firstn repeat].
    destruct (is_equals c) eqn:Hp; [|lia].
    apply Ascii.eqb_eq in Hp. subst c. f_equal. apply IH. lia.
Qed.

Lemma starts_with_split (pre l : text) :
  starts_with pre l = true -> l = pre ++ skipn (length pre) l.
Proof.
  revert l; induction pre as [|a pre IH]; intros [|b l]; cbn;
    try reflexivity; try discriminate.
  intros H. apply andb_true_iff in H as [Hab H].
  apply Ascii.eqb_eq in Hab. subst b. f_equal. apply IH. exact H.
Qed.

Lemma starts_with_app (pre rest : text) : starts_with pre (pre ++ rest) = true.
Proof.
  induction pre as [|a pre IH]; [reflexivity|].
  cbn. rewrite Ascii.eqb_refl. exact IH.
Qed.

(** ** The shape of a header match *)

Definition no_newline (s : text) : Prop :=
  forallb (fun c => negb (is_nl c)) s = true.

Definition all_space (s : text) : Prop := forallb re_space s = true.

Lemma spaces_eol_sound (l : text) :
  forall w w', (w <= run re_space l)%nat ->
    spaces_eol w l = Some w' ->
    all_space (firstn w' l) /\ at_eol (skipn w' l) = true.
Proof.
  induction w as [|w IH]; intros w' Hw; cbn [spaces_eol].
  - destruct (at_eol (skipn 0 l)) eqn:He; [|discriminate].
    intros H; inversion H; subst. split; [reflexivity | exact He].
  - destruct (at_eol (skipn (S w) l)) eqn:He.
    + intros H; inversion H; subst.
      split; [apply firstn_run; exact Hw | exact He].
    + apply IH. lia.
Qed.

Lemma header_close_sound (eqs l : text) (w : nat) :
  header_close eqs l = Some w ->
  exists ws rest,
    l = eqs ++ ws ++ rest /\ length ws = w /\ all_space ws
    /\ at_eol rest = true.
Proof.
  unfold header_close. destruct (starts_with eqs l) eqn:Hs; [|discriminate].
  intros H. pose proof (spaces_eol_le _ _ _ H) as Hle.
  apply spaces_eol_sound in H as [Hws Heol]; [|lia].
  pose proof (run_le_length re_space (skipn (length eqs) l)) as Hr.
  exists (firstn w (skipn (length eqs) l)), (skipn w (skipn (length eqs) l)).
  rewrite firstn_skipn. repeat split; try assumption.
  - apply starts_with_split. exact Hs.
  - apply firstn_length_le. lia.
Qed.

Lemma header_name_sound (eqs l : text) :
  forall n n' w,
    header_name eqs l n = Some (n', w) ->
    exists pre ws rest,
      l = pre ++ eqs ++ ws ++ rest /\ (n + length pre = n')%nat
      /\ no_newline pre /\ length ws = w /\ all_space ws
      /\ at_eol rest = true.
Proof.
  induction l as [|c r IH]; intros n n' w; cbn [header_name].
  - destruct (header_close eqs []) eqn:Hc; [|discriminate].
    intros H; inversion H; subst.
    apply header_close_sound in Hc as (ws & rest & Hl & Hw & Hs & He).
    exists [], ws, rest. cbn [app length]. repeat split; try assumption. lia.
  - destruct (header_close eqs (c :: r)) eqn:Hc.
    + intros H; inversion H; subst.
      apply header_close_sound in Hc as (ws & rest & Hl & Hw & Hs & He).
      exists [], ws, rest. cbn [app length].
      repeat split; try assumption. lia.
    + destruct (is_nl c) eqn:Hnl; [discriminate|].
      intros H. apply IH in H as (pre & ws & rest & Hl & Hn & Hp & Hw & Hs & He).
      exists (c :: pre), ws, rest. subst r. cbn [app length].
      repeat split; try assumption; [lia|].
      unfold no_newline. cbn [forallb]. rewrite Hnl. exact Hp.
Qed.

Lemma header_equals_sound (l : text) :
  forall k k' n w,
    (k <= run is_equals l)%nat ->
    header_equals k l = Some (k', n, w) ->
    exists name ws rest,
      l = repeat "="%char k' ++ name ++ repeat "="%char k' ++ ws ++ rest
      /\ (1 <= k')%nat /\ length name = n /\ (1 <= n)%nat
      /\ no_newline name /\ length ws = w /\ all_space ws
      /\ at_eol rest = true.
Proof.
  induction k as [|k IH]; intros k' n w Hk; [discriminate|].
  cbn [header_equals].
  destruct (skipn (S k) l) as [|c r] eqn:Hsk; [apply IH; lia|].
  destruct (is_nl c) eqn:Hnl; [apply IH; lia|].
  destruct (header_name (repeat "="%char (S k)) r 1) as [[n0 w0]|] eqn:Hn;
    [|apply IH; lia].
  intros H; inversion H; subst k' n0 w0. clear H.
  apply header_name_sound in Hn
    as (pre & ws & rest & Hl & Hlen & Hp & Hw & Hs & He).
  exists (c :: pre), ws, rest. cbn [length].
  repeat split; try assumption; try lia.
  - rewrite <- (firstn_skipn (S k) l) at 1. rewrite Hsk.
    rewrite (firstn_run_equals l (S k) Hk). subst r. reflexivity.
  - unfold no_newline. cbn [forallb]. rewrite Hnl. exact Hp.
Qed.

Lemma header_at_sound (l : text) (k n w : nat) :
  header_at l = Some (k, n, w) ->
  exists name ws rest,
    l = repeat "="%char k ++ name ++ repeat "="%char k ++ ws ++ rest
    /\ (1 <= k)%nat /\ length name = n /\ (1 <= n)%nat
    /\ no_newline name /\ length ws = w /\ all_space ws
    /\ at_eol rest = true.
Proof. apply header_equals_sound. lia. Qed.

(** What [section_header_re] matched at [m]: from [h_start m] the text
    reads the equals signs, a name, the same equals signs and a run of
    whitespace, and then ends or continues with a line break. *)
Definition header_shape (D : text) (m : header_match) : Prop :=
  exists name ws rest,
    skipn (Z.to_nat (h_start m)) D
    = h_equals m ++ name ++ h_equals m ++ ws ++ rest
    /\ 0 <= h_start m
    /\ h_end m = h_start m + len (h_equals m ++ name ++ h_equals m ++ ws)
    /\ h_section_name m = name
    /\ h_equals m = repeat "="%char (length (h_equals m))
    /\ (1 <= length (h_equals m))%nat
    /\ (1 <= length name)%nat
    /\ no_newline name /\ all_space ws /\ at_eol rest = true.

Lemma skipn_app_exact {A} (pre l : list A) : skipn (length pre) (pre ++ l) = l.
Proof. induction pre as [|x pre IH]; [reflexivity | exact IH]. Qed.

Lemma firstn_app_exact {A} (pre l : list A) :
  firstn (length pre) (pre ++ l) = pre.
Proof.
  induction pre as [|x pre IH]; [reflexivity|]. cbn. f_equal. exact IH.
Qed.

Lemma header_scan_shape (l : text) :
  forall pre prev skip,
    Forall (header_shape (pre ++ l))
           (header_scan prev skip (length pre) l).
Proof.
  induction l as [|c r IH]; intros pre prev skip; [constructor|].
  assert (Hrec : forall skip',
             Forall (header_shape (pre ++ c :: r))
                    (header_scan (Some c) skip' (S (length pre)) r)).
  { intros skip'. specialize (IH (pre ++ [c]) (Some c) skip').
    rewrite length_app, <- app_assoc in IH. cbn [length app] in IH.
    replace (length pre + 1)%nat with (S (length pre)) in IH by lia.
    exact IH. }
  cbn [header_scan]. destruct skip as [|s]; [|apply Hrec].
  destruct (if at_bol prev then header_at (c :: r) else None)
    as [[[k n] w]|] eqn:Hm; [|apply Hrec].
  constructor; [|apply Hrec].
  assert (Hat : header_at (c :: r) = Some (k, n, w))
    by (destruct (at_bol prev); [exact Hm | discriminate]).
  apply header_at_sound in Hat
    as (name & ws & rest & Hl & Hk & Hn & Hn1 & Hnn & Hw & Hws & He).
  exists name, ws, rest. cbn [h_start h_end h_equals h_section_name].
  rewrite Nat2Z.id, skipn_app_exact, repeat_length.
  repeat split; try assumption; try lia.
  - unfold len. rewrite !length_app, repeat_length. lia.
  - rewrite Hl. rewrite <- (repeat_length "="%char k) at 1.
    rewrite skipn_app_exact. rewrite <- Hn. apply firstn_app_exact.
Qed.

Lemma header_finditer_shape (D : text) :
  Forall (header_shape D) (header_finditer D).
Proof. exact (header_scan_shape D [] None O). Qed.

Lemma skipn_slice (D M rest : text) (a : nat) :
  skipn a D = M ++ rest -> (a <= length D)%nat ->
  Py.slice D (Z.of_nat a) (Z.of_nat a + len M) = M.
Proof.
  intros H Ha.
  assert (Hlen : length (skipn a D) = (length M + length rest)%nat)
    by (rewrite H; apply length_app).
  rewrite length_skipn in Hlen. unfold len. rewrite <- Nat2Z.inj_add.
  rewrite slice_firstn_skipn by lia. rewrite H.
  replace (a + length M - a)%nat with (length M) by lia.
  apply firstn_app_exact.
Qed.

(** ** Sections and the headers they come from *)

(** How a section of the header loop relates to its header match. *)
Definition section_of (D : text) (m : header_match)
           (c : CaptureResult Section_) : Prop :=
  span_begin (span c) = h_start m
  /\ name (data c) = h_section_name m
  /\ level (data c) = len (h_equals m)
  /\ body (data c) = Py.slice D (h_end m + 1) (span_end (span c))
  /\ _full_body (data c) = None.

Lemma sections_loop_section_of (D : text) (ms : list header_match) :
  Forall2 (section_of D) ms (sections_loop D ms).
Proof.
  induction ms as [|m rest IH]; [constructor|].
  cbn [sections_loop]. constructor; [|exact IH].
  repeat split.
Qed.

Lemma Forall2_Forall_r {A B} (R : A -> B -> Prop) (P : A -> Prop)
      (Q : B -> Prop) (xs : list A) (ys : list B) :
  Forall2 R xs ys -> Forall P xs ->
  (forall x y, R x y -> P x -> Q y) -> Forall Q ys.
Proof.
  intros H2 HP Himp. induction H2 as [|x y xs ys Hxy _ IH]; [constructor|].
  inversion HP; subst. constructor; [eapply Himp; eassumption | apply IH].
  assumption.
Qed.

Lemma sections_false_chain (D : text) :
  match header_finditer D with
  | [] => sections D false = []
  | m :: _ =>
      0 <= h_start m
      /\ covers 1 (h_start m) (len D) (spans (sections D false))
  end.
Proof.
  pose proof (header_finditer_chain D) as Hch. unfold sections. cbn [app].
  destruct (header_finditer D) as [|m rest] eqn:Hms; [reflexivity|].
  split; [cbn [headers_chain] in Hch; lia|].
  eapply sections_loop_covers; [reflexivity | exact Hch].
Qed.

(** X1: whatever the document, the spans yielded by [sections(D)] (no
    preamble) lie within the text, none is reversed, they come in document
    order without overlap, each begins one offset after the previous one
    ends, and the last one ends at [len(D)]. *)
Theorem sections_without_preamble_spans (D : text) :
  Forall (in_bounds (len D)) (spans (sections D false))
  /\ StronglySorted precedes (spans (sections D false))
  /\ (sections D false = []
      \/ exists a, covers 1 a (len D) (spans (sections D false))).
Proof.
  pose proof (sections_false_chain D) as H.
  destruct (header_finditer D) as [|m rest].
  - rewrite H. split; [constructor|]. split; [constructor | left; reflexivity].
  - destruct H as [H0 Hc]. split; [|split].
    + eapply covers_in_bounds; [| |exact Hc]; lia.
    + eapply covers_sorted. exact Hc.
    + right. exists (h_start m). exact Hc.
Qed.

(** X2: every section yielded by [sections(D)] comes from a header line:
    its level is at least 1 (it is never a preamble), its name is not
    empty and holds no line break, its span begins at offset 0 or just
    after a line break, and from there the text reads [level] equals
    signs, the name, [level] equals signs and a run of whitespace that
    reaches the end of the text or a line break. *)
Theorem sections_come_from_header_lines (D : text) :
  Forall (fun c =>
            let s := data c in
            let b := span_begin (span c) in
            let eqs := repeat "="%char (Z.to_nat (level s)) in
            1 <= level s /\ is_preamble s = false
            /\ name s <> [] /\ no_newline (name s)
            /\ starts_line D b
            /\ exists ws,
                 all_space ws
                 /\ Py.slice D b (b + len (eqs ++ name s ++ eqs ++ ws))
                    = eqs ++ name s ++ eqs ++ ws
                 /\ at_eol (skipn (Z.to_nat
                                     (b + len (eqs ++ name s ++ eqs ++ ws)))
                                  D) = true)
         (sections D false).
Proof.
  unfold sections. cbn [app].
  pose proof (header_finditer_shape D) as Hshape.
  pose proof (header_finditer_starts_line D) as Hline.
  assert (Hand : Forall (fun m => header_shape D m
                                  /\ starts_line D (h_start m))
                        (header_finditer D)).
  { apply Forall_and; assumption. }
  eapply Forall2_Forall_r;
    [apply sections_loop_section_of | exact Hand |].
  cbv beta zeta. intros m c (Hb & Hn & Hl & _ & _) [Hsh Hsl].
  destruct Hsh as (nm & ws & rest & Hsk & H0 & Hend & Hname & Heq & Hk
                   & Hn1 & Hnn & Hws & He).
  assert (Heqs : repeat "="%char (Z.to_nat (len (h_equals m))) = h_equals m)
    by (unfold len; rewrite Nat2Z.id; symmetry; exact Heq).
  unfold is_preamble. rewrite Hb, Hn, Hl, Hname, Heqs.
  assert (Hstart : (Z.to_nat (h_start m) <= length D)%nat).
  { destruct (Nat.le_gt_cases (Z.to_nat (h_start m)) (length D)) as [|Hgt];
      [assumption|].
    rewrite skipn_all2 in Hsk by lia.
    destruct (h_equals m); [cbn in Hk; lia | discriminate]. }
  repeat split; try assumption.
  - unfold len. lia.
  - apply Z.eqb_neq. unfold len. lia.
  - intros Hnil. rewrite Hnil in Hn1. cbn in Hn1. lia.
  - exists ws. split; [exact Hws|].
    assert (Hsk' : skipn (Z.to_nat (h_start m)) D
                   = (h_equals m ++ nm ++ h_equals m ++ ws) ++ rest)
      by (rewrite Hsk, <- !app_assoc; reflexivity).
    pose proof (skipn_slice D _ rest _ Hsk' Hstart) as Hslice.
    rewrite Z2Nat.id in Hslice by lia.
    split; [exact Hslice|].
    assert (Hlen : Z.to_nat (h_start m
                             + len (h_equals m ++ nm ++ h_equals m ++ ws))
                   = (length (h_equals m ++ nm ++ h_equals m ++ ws)
                      + Z.to_nat (h_start m))%nat)
      by (unfold len; lia).
    rewrite Hlen, <- skipn_skipn, Hsk', skipn_app_exact. exact He.
Qed.

Lemma header_scan_no_equals (l : text) :
  Py.mem "="%char l = false ->
  forall prev skip pos, header_scan prev skip pos l = [].
Proof.
  induction l as [|c r IH]; intros Hmem prev skip pos; [reflexivity|].
  unfold Py.mem in Hmem. cbn [existsb] in Hmem.
  apply orb_false_iff in Hmem as [Hc Hr].
  cbn [header_scan]. destruct skip as [|s]; [|apply IH; exact Hr].
  assert (Hat : header_at (c :: r) = None).
  { unfold header_at. cbn [run]. unfold is_equals.
    rewrite Ascii.eqb_sym, Hc. reflexivity. }
  rewrite Hat. destruct (at_bol prev); apply IH; exact Hr.
Qed.

(** X3: a document without any equals sign has no section: [sections(D)]
    yields nothing, and with the preamble requested the only result is the
    whole document, as a level-0 section with an empty name and the span
    [(0, len(D))]. *)
Theorem no_equals_sign_no_section (D : text) :
  Py.mem "="%char D = false ->
  sections D false = []
  /\ sections D true = [mkCapture (Section_init [] 0 D) (mkSpan 0 (len D))].
Proof.
  intros Hmem. unfold sections, header_finditer.
  rewrite (header_scan_no_equals D Hmem). cbn [app sections_loop
    body_end_before].
  split; [reflexivity|]. unfold Py.slice_to, len. rewrite slice_whole.
  reflexivity.
Qed.

Lemma no_equals_sign_no_section_witness :
  Py.mem "="%char (T "plain text") = false
  /\ sections (T "plain text") false = []
  /\ sections (T "plain text") true
     = [mkCapture (Section_init [] 0 (T "plain text")) (mkSpan 0 10)].
Proof.
  split; [reflexivity|].
  apply (no_equals_sign_no_section (T "plain text")). reflexivity.
Defined.

Lemma Forall2_combine_In {A B} (R : A -> B -> Prop) (xs : list A)
      (ys : list B) (x : A) (y : B) :
  Forall2 R xs ys -> In (x, y) (combine xs ys) -> R x y.
Proof.
  induction 1 as [|x0 y0 xs ys Hxy _ IH]; cbn [combine In]; [intros []|].
  intros [Heq|Hin]; [inversion Heq; subst; exact Hxy | apply IH; exact Hin].
Qed.

Lemma sections_false_in_bounds (D : text) :
  Forall (in_bounds (len D)) (spans (sections D false)).
Proof.
  pose proof (sections_false_chain D) as H.
  destruct (header_finditer D) as [|m rest].
  - rewrite H. constructor.
  - destruct H as [H0 Hc]. eapply covers_in_bounds; [| |exact Hc]; lia.
Qed.

(** X4: rebuilding a section gives back the source. For a section yielded
    by [sections(D)] whose header line carries no trailing whitespace and
    whose span reaches beyond the header line, [full_body] is exactly the
    text of the document at the span of the section. *)
Theorem full_body_is_span_text (D : text) (m : header_match)
        (c : CaptureResult Section_) :
  In (m, c) (combine (header_finditer D) (sections D false)) ->
  h_end m = h_start m + 2 * len (h_equals m) + len (h_section_name m) ->
  h_end m < span_end (span c) ->
  fst (full_body (data c))
  = Py.slice D (span_begin (span c)) (span_end (span c)).
Proof.
  intros Hin Hnows Hbeyond.
  assert (Hsec : section_of D m c).
  { eapply Forall2_combine_In; [|exact Hin].
    unfold sections. cbn [app]. apply sections_loop_section_of. }
  assert (Hsh : header_shape D m).
  { pose proof (header_finditer_shape D) as H. rewrite Forall_forall in H.
    apply H. eapply in_combine_l. exact Hin. }
  assert (Hbd : in_bounds (len D) (span c)).
  { pose proof (sections_false_in_bounds D) as H. rewrite Forall_forall in H.
    apply H. unfold spans. apply in_map. eapply in_combine_r. exact Hin. }
  destruct Hsec as (Hb & Hn & Hl & Hbody & Hfb).
  destruct Hsh as (nm & ws & rest & Hsk & H0 & Hend & Hname & Heq & Hk
                   & Hn1 & Hnn & Hws & He).
  destruct Hbd as (_ & _ & Hle).
  (* the value computed by the first read *)
  unfold full_body, is_preamble. rewrite Hfb, Hl.
  destruct (len (h_equals m) =? 0) eqn:Hz;
    [apply Z.eqb_eq in Hz; unfold len in Hz; lia|].
  cbn [fst]. rewrite Hn, Hname, Hbody, Hb.
  assert (Heqs : repeat "="%char (Z.to_nat (len (h_equals m))) = h_equals m)
    by (unfold len; rewrite Nat2Z.id; symmetry; exact Heq).
  rewrite Heqs.
  (* no trailing whitespace *)
  assert (Hws0 : ws = []).
  { apply length_zero_iff_nil. rewrite Hnows, <- Hname in Hend.
    unfold len in Hend. rewrite !length_app in Hend. lia. }
  subst ws. rewrite app_nil_r in Hend. cbn [app] in Hsk.
  (* offsets as natural numbers *)
  set (a := Z.to_nat (h_start m)) in *.
  set (M := h_equals m ++ nm ++ h_equals m) in *.
  set (e := Z.to_nat (span_end (span c))).
  assert (Ha : h_start m = Z.of_nat a) by (unfold a; lia).
  unfold len in Hend, Hle.
  assert (He' : span_end (span c) = Z.of_nat e) by (unfold e; lia).
  assert (Hhe : h_end m = Z.of_nat (a + length M)) by lia.
  assert (Hsk' : skipn a D = M ++ rest)
    by (rewrite Hsk; unfold M; rewrite <- !app_assoc; reflexivity).
  assert (HlenD : length D = (a + length M + length rest)%nat).
  { assert (Hl' : length (skipn a D) = (length M + length rest)%nat)
      by (rewrite Hsk'; apply length_app).
    rewrite length_skipn in Hl'.
    assert (length M >= 1)%nat by (unfold M; rewrite length_app; lia). lia. }
  assert (HeD : (e <= length D)%nat) by lia.
  destruct rest as [|x rest']; [cbn [length] in HlenD; lia|].
  cbn [at_eol] in He. apply Ascii.eqb_eq in He. subst x.
  rewrite Ha, He', Hhe.
  rewrite (slice_app D a (a + length M) e) by lia.
  rewrite (slice_app D (a + length M) (S (a + length M)) e) by lia.
  replace (Z.of_nat (a + length M) + 1)
    with (Z.of_nat (S (a + length M))) by lia.
  assert (H1 : Py.slice D (Z.of_nat a) (Z.of_nat (a + length M)) = M).
  { rewrite Nat2Z.inj_add. apply (skipn_slice D M (newline :: rest') a Hsk').
    lia. }
  assert (H2 : Py.slice D (Z.of_nat (a + length M))
                        (Z.of_nat (S (a + length M))) = [newline]).
  { replace (Z.of_nat (S (a + length M)))
      with (Z.of_nat (a + length M) + len [newline])
      by (unfold len; cbn [length]; lia).
    apply (skipn_slice D [newline] rest'); [|lia].
    rewrite Nat.add_comm, <- skipn_skipn, Hsk', skipn_app_exact.
    reflexivity. }
  rewrite H1, H2. unfold M. rewrite <- !app_assoc. reflexivity.
Qed.

Lemma full_body_is_span_text_witness :
  let m := mkHeader 2 5 (T "=") (T "h") in
  let c := mkCapture (Section_init (T "h") 1 (T "b")) (mkSpan 2 7) in
  In (m, c) (combine (header_finditer doc_two) (sections doc_two false))
  /\ h_end m = h_start m + 2 * len (h_equals m) + len (h_section_name m)
  /\ h_end m < span_end (span c)
  /\ fst (full_body (data c))
     = Py.slice doc_two (span_begin (span c)) (span_end (span c)).
Proof.
  cbv zeta.
  assert (Hin : In (mkHeader 2 5 (T "=") (T "h"),
                    mkCapture (Section_init (T "h") 1 (T "b")) (mkSpan 2 7))
                   (combine (header_finditer doc_two)
                            (sections doc_two false)))
    by (left; reflexivity).
  split; [exact Hin|]. split; [reflexivity|]. split; [reflexivity|].
  exact (full_body_is_span_text doc_two _ _ Hin eq_refl eq_refl).
Defined.

(** ** The coarse candidates *)

Definition in_simple_class (s : text) : Prop := forallb simple_class s = true.

Lemma simple_body_sound (l : text) :
  forall n n', simple_body l n = Some n' ->
    exists pre rest,
      l = pre ++ T "]]" ++ rest /\ (n + length pre = n')%nat
      /\ in_simple_class pre.
Proof.
  induction l as [|c r IH]; intros n n'; cbn [simple_body].
  - cbn. discriminate.
  - destruct (starts_with (T "]]") (c :: r)) eqn:Hs.
    + intros H; inversion H; subst. exists [], (skipn 2 (c :: r)).
      split; [apply (starts_with_split (T "]]")); exact Hs|].
      split; [cbn; lia | reflexivity].
    + destruct (simple_class c) eqn:Hc; [|discriminate].
      intros H. apply IH in H as (pre & rest & Hl & Hn & Hp).
      exists (c :: pre), rest. subst r. cbn [app length].
      split; [reflexivity|]. split; [lia|].
      unfold in_simple_class. cbn [forallb]. rewrite Hc. exact Hp.
Qed.

Lemma simple_at_sound (l : text) (n : nat) :
  simple_at l = Some n ->
  exists inner rest,
    l = T "[[" ++ inner ++ T "]]" ++ rest
    /\ n = (4 + length inner)%nat /\ inner <> [] /\ in_simple_class inner.
Proof.
  unfold simple_at. destruct l as [|a [|b [|c r]]]; try discriminate.
  destruct (Ascii.eqb a "["%char) eqn:Ha; [|discriminate].
  destruct (Ascii.eqb b "["%char) eqn:Hb; [|discriminate].
  destruct (simple_class c) eqn:Hc; [|discriminate]. cbn [andb].
  destruct (simple_body r 1) as [n0|] eqn:Hbody; [|discriminate].
  intros H; inversion H; subst n. clear H.
  apply Ascii.eqb_eq in Ha, Hb. subst a b.
  apply simple_body_sound in Hbody as (pre & rest & Hl & Hn & Hp).
  exists (c :: pre), rest. subst r. cbn [length].
  split; [reflexivity|]. split; [lia|]. split; [discriminate|].
  unfold in_simple_class. cbn [forallb]. rewrite Hc. exact Hp.
Qed.

(** What [wikilink_simple_re] matched at [sm]. *)
Definition simple_shape (D : text) (sm : simple_match) : Prop :=
  exists inner,
    s_group0 sm = T "[[" ++ inner ++ T "]]"
    /\ inner <> [] /\ in_simple_class inner
    /\ 0 <= s_start sm /\ s_end sm <= len D
    /\ s_end sm = s_start sm + len (s_group0 sm)
    /\ Py.slice D (s_start sm) (s_end sm) = s_group0 sm.

(** In order and disjoint, from [lo] on. *)
Fixpoint simple_chain (lo : Z) (ms : list simple_match) : Prop :=
  match ms with
  | [] => True
  | m :: rest =>
      lo <= s_start m /\ s_start m < s_end m /\ simple_chain (s_end m) rest
  end.

Lemma simple_chain_weaken (lo lo' : Z) (ms : list simple_match) :
  lo' <= lo -> simple_chain lo ms -> simple_chain lo' ms.
Proof.
  destruct ms as [|m rest]; cbn [simple_chain]; [trivial|].
  intros Hlo (H1 & H2 & H3). repeat split; try assumption; lia.
Qed.

Lemma simple_scan_shape (l : text) :
  forall pre skip,
    Forall (simple_shape (pre ++ l)) (simple_scan skip (length pre) l)
    /\ simple_chain (Z.of_nat (length pre + skip))
                    (simple_scan skip (length pre) l).
Proof.
  induction l as [|c r IH]; intros pre skip; [split; [constructor | exact I]|].
  assert (Hrec : forall skip',
             Forall (simple_shape (pre ++ c :: r))
                    (simple_scan skip' (S (length pre)) r)
             /\ simple_chain (Z.of_nat (S (length pre) + skip'))
                             (simple_scan skip' (S (length pre)) r)).
  { intros skip'. specialize (IH (pre ++ [c]) skip').
    rewrite length_app, <- app_assoc in IH. cbn [length app] in IH.
    replace (length pre + 1)%nat with (S (length pre)) in IH by lia.
    exact IH. }
  cbn [simple_scan]. destruct skip as [|s].
  - destruct (simple_at (c :: r)) as [n|] eqn:Hat.
    + destruct (Hrec (n - 1)%nat) as [Hsh Hch].
      pose proof (simple_at_sound _ _ Hat)
        as (inner & rest & Hl & Hn & Hne & Hcl).
      assert (Hg : firstn n (c :: r) = T "[[" ++ inner ++ T "]]").
      { rewrite Hl.
        replace (T "[[" ++ inner ++ T "]]" ++ rest)
          with ((T "[[" ++ inner ++ T "]]") ++ rest)
          by (rewrite <- !app_assoc; reflexivity).
        replace n with (length (T "[[" ++ inner ++ T "]]"))
          by (rewrite !length_app; cbn [T list_ascii_of_string length]; lia).
        apply firstn_app_exact. }
      assert (Hlen : (n <= length (c :: r))%nat).
      { rewrite Hl, !length_app. cbn [T list_ascii_of_string length]. lia. }
      split.
      * constructor; [|exact Hsh].
        exists inner. cbn [s_start s_end s_group0]. rewrite Hg.
        repeat split; try assumption; try lia.
        -- unfold len. rewrite length_app. lia.
        -- unfold len. rewrite !length_app.
           cbn [T list_ascii_of_string length]. lia.
        -- replace (Z.of_nat (length pre + n))
             with (Z.of_nat (length pre)
                   + len (T "[[" ++ inner ++ T "]]"))
             by (unfold len; rewrite !length_app;
                 cbn [T list_ascii_of_string length]; lia).
           apply (skipn_slice _ _ rest).
           ++ rewrite skipn_app_exact, Hl, <- !app_assoc. reflexivity.
           ++ rewrite length_app. lia.
      * cbn [simple_chain s_start s_end]. repeat split; try lia.
        eapply simple_chain_weaken; [|exact Hch]. lia.
    + destruct (Hrec O) as [Hsh Hch]. split; [exact Hsh|].
      eapply simple_chain_weaken; [|exact Hch]. lia.
  - destruct (Hrec s) as [Hsh Hch]. split; [exact Hsh|].
    eapply simple_chain_weaken; [|exact Hch]. lia.
Qed.

(** X5: every coarse candidate is a pair of double brackets around a
    non-empty text without line breaks or brackets; its offsets lie within
    the document and the document read at these offsets is the matched
    text; candidates come in document order and do not overlap. *)
Theorem simple_candidates_shape (D : text) :
  Forall (simple_shape D) (simple_finditer D)
  /\ simple_chain 0 (simple_finditer D).
Proof. exact (simple_scan_shape D [] O). Qed.

Lemma simple_scan_none (l : text) :
  (forall p, simple_at (skipn p l) = None) ->
  forall skip pos, simple_scan skip pos l = [].
Proof.
  induction l as [|c r IH]; intros Hnone skip pos; [reflexivity|].
  assert (Hr : forall p, simple_at (skipn p r) = None)
    by (intros p; exact (Hnone (S p))).
  cbn [simple_scan]. destruct skip as [|s]; [|apply IH; exact Hr].
  pose proof (Hnone O) as H0. cbn [skipn] in H0. rewrite H0.
  apply IH. exact Hr.
Qed.

Lemma simple_scan_nil_inv (l : text) :
  forall pos, simple_scan O pos l = [] ->
    forall p, simple_at (skipn p l) = None.
Proof.
  induction l as [|c r IH]; intros pos Hnil p.
  - destruct p; reflexivity.
  - cbn [simple_scan] in Hnil.
    destruct (simple_at (c :: r)) eqn:Hat; [discriminate|].
    destruct p as [|p]; [exact Hat|]. cbn [skipn]. eapply IH. exact Hnil.
Qed.

(** X6: what a caller of [wikilinks] gets, for every page title, source
    and section list: nothing is ever yielded; the generator ends normally
    exactly when no offset of the source starts a coarse candidate, and
    otherwise it raises [UnboundLocalError] for [revtext]. *)
Theorem wikilinks_outcome (page_title source : text)
        (secs : list (CaptureResult Section_)) :
  let t := wikilinks page_title source secs in
  actions t = []
  /\ (raised t = None <-> forall p, simple_at (skipn p source) = None)
  /\ (raised t = None \/ raised t = Some (UnboundLocalError "revtext")).
Proof.
  cbv zeta. rewrite wikilinks_trace. cbn [actions raised].
  split; [reflexivity|]. split.
  - split.
    + intros H. apply (simple_scan_nil_inv source O).
      unfold simple_finditer in H.
      destruct (simple_scan O O source); [reflexivity | discriminate].
    + intros H. unfold simple_finditer.
      rewrite (simple_scan_none source H). reflexivity.
  - destruct (simple_finditer source); [left | right]; reflexivity.
Qed.

(** ** The shape of a match of the link grammar *)

Definition no_open_bracket (s : text) : Prop := Py.mem "["%char s = false.
Definition all_non_space (s : text) : Prop := forallb non_space s = true.
Definition in_link_class (s : text) : Prop := forallb link_class s = true.

Lemma anchor_lazy_sound (l : text) :
  forall k k', anchor_lazy l k = Some k' ->
    exists a rest,
      l = a ++ T "]]" ++ rest /\ (k + length a = k')%nat
      /\ no_open_bracket a.
Proof.
  induction l as [|c r IH]; intros k k'; cbn [anchor_lazy].
  - cbn. discriminate.
  - destruct (starts_with (T "]]") (c :: r)) eqn:Hs.
    + intros H; inversion H; subst. exists [], (skipn 2 (c :: r)).
      split; [apply (starts_with_split (T "]]")); exact Hs|].
      split; [cbn; lia | reflexivity].
    + destruct (Ascii.eqb c "["%char) eqn:Hc; [discriminate|].
      intros H. apply IH in H as (a & rest & Hl & Hn & Hp).
      exists (c :: a), rest. subst r. cbn [app length].
      split; [reflexivity|]. split; [lia|].
      unfold no_open_bracket, Py.mem. cbn [existsb].
      rewrite Ascii.eqb_sym, Hc. exact Hp.
Qed.

(** The text between the link and the closing brackets. *)
Definition piped (anchor : option text) : text :=
  match anchor with
  | Some a => "|"%char :: a
  | None => []
  end.

Lemma link_close_sound (l : text) (an : option nat) (w : nat) :
  link_close l = Some (an, w) ->
  exists anchor rest,
    l = piped anchor ++ T "]]" ++ rest
    /\ w = (length (piped anchor) + 2)%nat
    /\ an = option_map (@length ascii) anchor
    /\ (forall a, anchor = Some a -> no_open_bracket a).
Proof.
  unfold link_close.
  set (with_anchor :=
         match l with
         | [] => None
         | c :: r =>
             if Ascii.eqb c "|"%char
             then option_map (fun m => (Some m, (1 + m + 2)%nat))
                             (anchor_lazy r O)
             else None
         end).
  destruct with_anchor as [res|] eqn:Hwa.
  - intros H; inversion H; subst res. clear H. unfold with_anchor in Hwa.
    destruct l as [|c r]; [discriminate|].
    destruct (Ascii.eqb c "|"%char) eqn:Hc; [|discriminate].
    apply Ascii.eqb_eq in Hc. subst c.
    destruct (anchor_lazy r O) as [k|] eqn:Hk; [|discriminate].
    cbn [option_map] in Hwa. inversion Hwa; subst an w.
    apply anchor_lazy_sound in Hk as (a & rest & Hl & Hn & Hp).
    exists (Some a), rest. subst r. cbn [piped option_map length app].
    repeat split; try lia.
    + f_equal. lia.
    + intros a0 Ha0. inversion Ha0; subst. exact Hp.
  - destruct (starts_with (T "]]") l) eqn:Hs; [|discriminate].
    intros H; inversion H; subst an w.
    exists None, (skipn 2 l). cbn [piped app length option_map].
    repeat split.
    + apply (starts_with_split (T "]]")). exact Hs.
    + intros a Ha. discriminate.
Qed.

Lemma link_greedy_sound (l : text) :
  forall n n' an w,
    (n <= run link_class l)%nat ->
    link_greedy n l = Some (n', an, w) ->
    (n' <= n)%nat /\ link_close (skipn n' l) = Some (an, w).
Proof.
  induction n as [|n IH]; intros n' an w Hn; cbn [link_greedy].
  - destruct (link_close (skipn 0 l)) as [[a0 w0]|] eqn:Hc; [|discriminate].
    intros H; inversion H; subst. split; [lia | exact Hc].
  - destruct (link_close (skipn (S n) l)) as [[a0 w0]|] eqn:Hc.
    + intros H; inversion H; subst. split; [lia | exact Hc].
    + intros H. apply IH in H as [Hle Hcl]; [|lia]. split; [lia | exact Hcl].
Qed.

Lemma wikilink_at_sound (l : text) (n : nat) (an : option nat) (w : nat) :
  wikilink_at l = Some (n, an, w) ->
  exists lnk anchor rest,
    l = T "[[" ++ lnk ++ piped anchor ++ T "]]" ++ rest
    /\ length lnk = n /\ (n <= 256)%nat /\ in_link_class lnk
    /\ w = (length (piped anchor) + 2)%nat
    /\ an = option_map (@length ascii) anchor
    /\ (forall a, anchor = Some a -> no_open_bracket a).
Proof.
  unfold wikilink_at. destruct (starts_with (T "[[") l) eqn:Hs; [|discriminate].
  intros H.
  pose proof (run_le_length link_class (skipn 2 l)) as Hrl.
  apply link_greedy_sound in H as [Hle Hcl]; [|lia].
  apply link_close_sound in Hcl as (anchor & rest & Hl & Hw & Han & Hno).
  exists (firstn n (skipn 2 l)), anchor, rest.
  repeat split; try assumption; try lia.
  - rewrite (starts_with_split _ _ Hs) at 1. f_equal.
    change (length (T "[[")) with 2%nat.
    rewrite <- (firstn_skipn n (skipn 2 l)) at 1. f_equal. exact Hl.
  - apply firstn_length_le. lia.
  - apply firstn_run. lia.
Qed.

Lemma skipn_app_len {A} (xs ys : list A) (n : nat) :
  n = length xs -> skipn n (xs ++ ys) = ys.
Proof. intros ->. apply skipn_app_exact. Qed.

Lemma firstn_app_len {A} (xs ys : list A) (n : nat) :
  n = length xs -> firstn n (xs ++ ys) = xs.
Proof. intros ->. apply firstn_app_exact. Qed.

Lemma run_stops (p : ascii -> bool) (l : text) (c : ascii) (r : text) :
  skipn (run p l) l = c :: r -> p c = false.
Proof.
  induction l as [|d l IH]; cbn [run]; [discriminate|].
  destruct (p d) eqn:Hd.
  - cbn [skipn]. exact IH.
  - cbn [skipn]. intros H; inversion H; subst. exact Hd.
Qed.

(** What [wikilink_re] matched, read from the start of the [total] group:
    [T0] is the searched text from that offset on. *)
Definition wikilink_shape (T0 : text) (start tstart : nat)
           (m : wikilink_match) : Prop :=
  exists pre post rest,
    T0 = pre ++ T "[[" ++ w_link m ++ piped (w_anchor m) ++ T "]]"
         ++ post ++ rest
    /\ w_start m = Z.of_nat start
    /\ w_total_start m = Z.of_nat tstart
    /\ w_wikilink_start m = w_total_start m + len pre
    /\ w_wikilink_end m
       = w_wikilink_start m + 4 + len (w_link m) + len (piped (w_anchor m))
    /\ w_total_end m = w_wikilink_end m + len post
    /\ w_total_end m <= w_end m <= w_total_end m + 1
    /\ w_end m <= Z.of_nat tstart + len T0
    /\ all_non_space pre /\ all_non_space post
    /\ in_link_class (w_link m) /\ (length (w_link m) <= 256)%nat
    /\ (forall a, w_anchor m = Some a -> no_open_bracket a)
    /\ (forall c r, rest = c :: r -> re_space c = true).

Lemma total_lazy_sound (start tstart : nat) (l : text) :
  forall consumed m,
    all_non_space consumed ->
    total_lazy start tstart l (length consumed) = Some m ->
    wikilink_shape (consumed ++ l) start tstart m.
Proof.
  induction l as [|c r IH]; intros consumed m Hcons.
  - cbn [total_lazy]. cbn. discriminate.
  - cbn [total_lazy].
    destruct (wikilink_at (c :: r)) as [[[n an] w]|] eqn:Hat.
    + apply wikilink_at_sound in Hat
        as (lnk & anchor & rest0 & Hl & Hn & Hle & Hcl & Hw & Han & Hno).
      rewrite Hl. clear Hl IH. subst n w an.
      assert (Hsk2 : skipn 2 (T "[[" ++ lnk ++ piped anchor ++ T "]]" ++ rest0)
                     = lnk ++ piped anchor ++ T "]]" ++ rest0) by reflexivity.
      assert (Hafter :
                skipn (2 + length lnk + (length (piped anchor) + 2))
                      (T "[[" ++ lnk ++ piped anchor ++ T "]]" ++ rest0)
                = rest0).
      { replace (T "[[" ++ lnk ++ piped anchor ++ T "]]" ++ rest0)
          with ((T "[[" ++ lnk ++ piped anchor ++ T "]]") ++ rest0)
          by (rewrite <- !app_assoc; reflexivity).
        apply skipn_app_len. rewrite !length_app.
        cbn [T list_ascii_of_string length]. lia. }
      assert (Hlink : firstn (length lnk)
                        (skipn 2 (T "[[" ++ lnk ++ piped anchor
                                  ++ T "]]" ++ rest0)) = lnk)
        by (rewrite Hsk2; apply firstn_app_exact).
      assert (Hanchor :
                option_map
                  (fun k => firstn k
                     (skipn (2 + length lnk + 1)
                        (T "[[" ++ lnk ++ piped anchor ++ T "]]" ++ rest0)))
                  (option_map (@length ascii) anchor) = anchor).
      { destruct anchor as [a|]; [|reflexivity]. cbn [option_map piped].
        f_equal.
        replace (T "[[" ++ lnk ++ ("|"%char :: a) ++ T "]]" ++ rest0)
          with ((T "[[" ++ lnk ++ ["|"%char]) ++ a ++ T "]]" ++ rest0)
          by (rewrite <- !app_assoc; reflexivity).
        rewrite skipn_app_len
          by (rewrite !length_app; cbn [T list_ascii_of_string length]; lia).
        apply firstn_app_exact. }
      rewrite Hafter, Hlink, Hanchor.
      remember (firstn (run non_space rest0) rest0) as post eqn:Hpd.
      remember (skipn (run non_space rest0) rest0) as rest eqn:Hrd.
      assert (Hpost : all_non_space post)
        by (subst post; apply firstn_run; lia).
      assert (Hrest0 : rest0 = post ++ rest)
        by (subst post rest; symmetry; apply firstn_skipn).
      assert (Hplen : length post = run non_space rest0).
      { subst post. apply firstn_length_le. apply run_le_length. }
      assert (Hrest : forall c0 r0, rest = c0 :: r0 -> re_space c0 = true).
      { intros c0 r0 Hr. rewrite Hrd in Hr. apply run_stops in Hr.
        unfold non_space in Hr.
        destruct (re_space c0); [reflexivity | discriminate]. }
      clear Hpd Hrd.
      intros H; inversion H; subst m; clear H.
      exists consumed, post, rest.
      cbn [w_start w_total_start w_wikilink_start w_link w_anchor
           w_wikilink_end w_total_end w_end].
      rewrite <- Hrest0. unfold len.
      repeat split; try assumption; try lia.
      * destruct rest as [|c0 r0]; [lia|].
        rewrite (Hrest c0 r0 eq_refl). lia.
      * destruct rest as [|c0 r0]; [lia|].
        rewrite (Hrest c0 r0 eq_refl). lia.
      * assert (Hlen0 : length rest0 = (length post + length rest)%nat)
          by (rewrite Hrest0, length_app; reflexivity).
        rewrite !length_app. cbn [T list_ascii_of_string length].
        destruct rest as [|c0 r0]; cbn [length] in Hlen0; [lia|].
        rewrite (Hrest c0 r0 eq_refl). lia.
    + destruct (non_space c) eqn:Hc; [|discriminate].
      intros H.
      specialize (IH (consumed ++ [c]) m).
      rewrite length_app in IH. cbn [length] in IH.
      replace (length consumed + 1)%nat with (S (length consumed)) in IH
        by lia.
      rewrite <- app_assoc in IH. apply IH; [|exact H].
      unfold all_non_space. rewrite forallb_app. cbn [forallb].
      rewrite Hcons, Hc. reflexivity.
Qed.

Lemma wikilink_match_at_sound (pos : nat) (l : text) (m : wikilink_match) :
  wikilink_match_at pos l = Some m ->
  exists tstart T0,
    skipn (tstart - pos) l = T0 /\ (pos <= tstart <= pos + 1)%nat
    /\ wikilink_shape T0 pos tstart m.
Proof.
  unfold wikilink_match_at.
  destruct (match l with
            | [] => None
            | c :: r => if re_space c then total_lazy pos (S pos) r O else None
            end) as [m0|] eqn:Hg.
  - intros H; inversion H; subst m0. clear H.
    destruct l as [|c r]; [discriminate|].
    destruct (re_space c); [|discriminate].
    exists (S pos), r. replace (S pos - pos)%nat with 1%nat by lia.
    split; [reflexivity|]. split; [lia|].
    apply (total_lazy_sound pos (S pos) r [] m); [reflexivity | exact Hg].
  - intros H. exists pos, l. rewrite Nat.sub_diag.
    split; [reflexivity|]. split; [lia|].
    apply (total_lazy_sound pos pos l [] m); [reflexivity | exact H].
Qed.

Lemma wikilink_search_from_sound (l : text) :
  forall pre m,
    wikilink_search_from (length pre) l = Some m ->
    exists start tstart,
      (start <= tstart <= start + 1)%nat
      /\ wikilink_shape (skipn tstart (pre ++ l)) start tstart m.
Proof.
  induction l as [|c r IH]; intros pre m; cbn [wikilink_search_from].
  - destruct (wikilink_match_at (length pre) []) as [m0|] eqn:Hat;
      [|discriminate].
    intros H; inversion H; subst m0.
    apply wikilink_match_at_sound in Hat as (tstart & T0 & Hsk & Hle & Hsh).
    exists (length pre), tstart. split; [exact Hle|].
    replace (skipn tstart (pre ++ [])) with T0; [exact Hsh|].
    rewrite <- Hsk.
    replace tstart with ((tstart - length pre) + length pre)%nat at 2 by lia.
    rewrite <- skipn_skipn, skipn_app_exact. reflexivity.
  - destruct (wikilink_match_at (length pre) (c :: r)) as [m0|] eqn:Hat.
    + intros H; inversion H; subst m0.
      apply wikilink_match_at_sound in Hat as (tstart & T0 & Hsk & Hle & Hsh).
      exists (length pre), tstart. split; [exact Hle|].
      replace (skipn tstart (pre ++ c :: r)) with T0; [exact Hsh|].
      rewrite <- Hsk.
      replace tstart with ((tstart - length pre) + length pre)%nat at 2
        by lia.
      rewrite <- skipn_skipn, skipn_app_exact. reflexivity.
    + intros H. specialize (IH (pre ++ [c]) m).
      rewrite length_app, <- app_assoc in IH. cbn [length app] in IH.
      replace (length pre + 1)%nat with (S (length pre)) in IH by lia.
      apply IH. exact H.
Qed.

Lemma skipn_slice_middle (D X Y Z' : text) (a : nat) :
  skipn a D = X ++ Y ++ Z' -> (a <= length D)%nat ->
  Py.slice D (Z.of_nat a + len X) (Z.of_nat a + len X + len Y) = Y.
Proof.
  intros H Ha.
  assert (Hlen : length (skipn a D) = length (X ++ Y ++ Z'))
    by (rewrite H; reflexivity).
  rewrite length_skipn, !length_app in Hlen.
  unfold len at 1 2. rewrite <- !Nat2Z.inj_add.
  apply (skipn_slice D Y Z'); [|lia].
  rewrite Nat.add_comm, <- skipn_skipn, H. apply skipn_app_exact.
Qed.

(** The bracketed part of a match, as it stands in the text. *)
Definition bracketed (m : wikilink_match) : text :=
  T "[[" ++ w_link m ++ piped (w_anchor m) ++ T "]]".

Lemma wikilink_search_sound (subtext : text) (m : wikilink_match) :
  wikilink_search subtext = Some m ->
  (0 <= w_start m <= w_total_start m
   /\ w_total_start m <= w_start m + 1
   /\ w_total_start m <= w_wikilink_start m
   /\ w_wikilink_start m + 4 <= w_wikilink_end m
   /\ w_wikilink_end m <= w_total_end m <= w_end m
   /\ w_end m <= w_total_end m + 1
   /\ w_end m <= len subtext)
  /\ Py.slice subtext (w_wikilink_start m) (w_wikilink_end m) = bracketed m
  /\ all_non_space
       (Py.slice subtext (w_total_start m) (w_wikilink_start m))
  /\ all_non_space (Py.slice subtext (w_wikilink_end m) (w_total_end m))
  /\ in_link_class (w_link m) /\ (length (w_link m) <= 256)%nat
  /\ (forall a, w_anchor m = Some a -> no_open_bracket a).
Proof.
  intros H. apply (wikilink_search_from_sound subtext []) in H
    as (start & tstart & Hst & Hsh).
  cbn [app] in Hsh.
  destruct Hsh as (pre & post & rest & HT & Hs & Hts & Hws & Hwe & Hte & Hend
                   & Hbound & Hpre & Hpost & Hcl & H256 & Hno & _).
  assert (Hlen : length (skipn tstart subtext)
                 = length (pre ++ bracketed m ++ post ++ rest))
    by (rewrite HT; unfold bracketed; rewrite <- ?app_assoc; reflexivity).
  rewrite length_skipn, !length_app in Hlen.
  assert (Hb : length (bracketed m)
               = (4 + length (w_link m) + length (piped (w_anchor m)))%nat).
  { unfold bracketed. rewrite !length_app.
    cbn [T list_ascii_of_string length]. lia. }
  assert (Hin : (tstart <= length subtext)%nat) by lia.
  assert (HT1 : skipn tstart subtext = pre ++ bracketed m ++ post ++ rest)
    by (rewrite HT; unfold bracketed; rewrite <- ?app_assoc; reflexivity).
  assert (HT2 : skipn tstart subtext
                = (pre ++ bracketed m) ++ post ++ rest)
    by (rewrite HT1, <- !app_assoc; reflexivity).
  assert (HT3 : skipn tstart subtext
                = [] ++ pre ++ bracketed m ++ post ++ rest)
    by (rewrite HT1; reflexivity).
  unfold len in *.
  split; [rewrite length_skipn in Hbound; lia|].
  assert (Ews : w_wikilink_start m
                = Z.of_nat tstart + Z.of_nat (length pre)) by lia.
  assert (Ewe : w_wikilink_end m
                = Z.of_nat tstart + Z.of_nat (length pre)
                  + Z.of_nat (length (bracketed m))) by lia.
  assert (Ete : w_total_end m
                = Z.of_nat tstart
                  + Z.of_nat (length (pre ++ bracketed m))
                  + Z.of_nat (length post))
    by (rewrite length_app; lia).
  assert (Ewe' : w_wikilink_end m
                 = Z.of_nat tstart + Z.of_nat (length (pre ++ bracketed m)))
    by (rewrite length_app; lia).
  split; [|split; [|split]].
  - rewrite Ews, Ewe.
    exact (skipn_slice_middle subtext pre (bracketed m) (post ++ rest)
                              tstart HT1 Hin).
  - pose proof (skipn_slice_middle subtext [] pre
                                   (bracketed m ++ post ++ rest)
                                   tstart HT3 Hin) as Hsl.
    unfold len in Hsl. cbn [length] in Hsl.
    replace (Z.of_nat tstart + Z.of_nat 0) with (Z.of_nat tstart) in Hsl
      by lia.
    rewrite Ews, Hts, Hsl. exact Hpre.
  - rewrite Ete, Ewe'.
    pose proof (skipn_slice_middle subtext (pre ++ bracketed m) post rest
                                   tstart HT2 Hin) as Hsl.
    unfold len in Hsl. rewrite Hsl. exact Hpost.
  - repeat split; assumption.
Qed.

(** X7: what a match of [wikilink_re] guarantees, for every searched text.
    The offsets are nested and within the text: match, [total] and
    [wikilink] groups, with at most one character of the match before and
    after [total]. The text at the [wikilink] group is the double brackets
    around the link and, when there is a pipe, the pipe and the anchor.
    The link has at most 256 characters, none of them a line break or one
    of [| ] [ < > { }]; the anchor holds no opening bracket; the affixes
    on both sides of the brackets hold no whitespace. *)
Theorem wikilink_search_shape (subtext : text) (m : wikilink_match) :
  wikilink_search subtext = Some m ->
  (0 <= w_start m <= w_total_start m
   /\ w_total_start m <= w_start m + 1
   /\ w_total_start m <= w_wikilink_start m
   /\ w_wikilink_start m + 4 <= w_wikilink_end m
   /\ w_wikilink_end m <= w_total_end m <= w_end m
   /\ w_end m <= w_total_end m + 1
   /\ w_end m <= len subtext)
  /\ Py.slice subtext (w_wikilink_start m) (w_wikilink_end m) = bracketed m
  /\ all_non_space
       (Py.slice subtext (w_total_start m) (w_wikilink_start m))
  /\ all_non_space (Py.slice subtext (w_wikilink_end m) (w_total_end m))
  /\ in_link_class (w_link m) /\ (length (w_link m) <= 256)%nat
  /\ (forall a, w_anchor m = Some a -> no_open_bracket a).
Proof. exact (wikilink_search_sound subtext m). Qed.

Lemma wikilink_search_shape_witness :
  exists m,
    wikilink_search (T "x y[[a#b|c d]]z w") = Some m
    /\ Py.slice (T "x y[[a#b|c d]]z w") (w_wikilink_start m)
                (w_wikilink_end m) = T "[[a#b|c d]]"
    /\ w_link m = T "a#b" /\ w_anchor m = Some (T "c d")
    /\ (w_total_start m, w_total_end m) = (2, 15).
Proof.
  eexists. split; [reflexivity|].
  destruct (wikilink_search_shape (T "x y[[a#b|c d]]z w") _ eq_refl)
    as (_ & Hb & _).
  split; [exact Hb|]. repeat split.
Defined.

(** ** Trimming and splitting *)

Lemma forallb_rev (q : ascii -> bool) (s : text) :
  forallb q (rev s) = forallb q s.
Proof.
  induction s as [|c s IH]; [reflexivity|].
  cbn [rev forallb]. rewrite forallb_app, IH. cbn [forallb].
  rewrite andb_true_r. apply andb_comm.
Qed.

Lemma lstrip_by_split (p : ascii -> bool) (s : text) :
  exists pre, s = pre ++ Py.lstrip_by p s /\ forallb p pre = true.
Proof.
  induction s as [|c s IH]; [exists []; split; reflexivity|].
  cbn [Py.lstrip_by]. destruct (p c) eqn:Hc.
  - destruct IH as (pre & Hs & Hp). exists (c :: pre).
    split; [cbn; f_equal; exact Hs | cbn; rewrite Hc; exact Hp].
  - exists []. split; reflexivity.
Qed.

Lemma lstrip_by_keeps (p q : ascii -> bool) (s : text) :
  forallb q s = true -> forallb q (Py.lstrip_by p s) = true.
Proof.
  intros H. destruct (lstrip_by_split p s) as (pre & Hs & _).
  rewrite Hs, forallb_app in H. apply andb_true_iff in H as [_ H]. exact H.
Qed.

Lemma lstrip_by_length (p : ascii -> bool) (s : text) :
  (length (Py.lstrip_by p s) <= length s)%nat.
Proof.
  destruct (lstrip_by_split p s) as (pre & Hs & _).
  rewrite Hs at 2. rewrite length_app. lia.
Qed.

Lemma strip_by_keeps (p q : ascii -> bool) (s : text) :
  forallb q s = true -> forallb q (Py.strip_by p s) = true.
Proof.
  intros H. unfold Py.strip_by, Py.rstrip_by.
  rewrite forallb_rev. apply lstrip_by_keeps. rewrite forallb_rev.
  apply lstrip_by_keeps. exact H.
Qed.

Lemma strip_by_length (p : ascii -> bool) (s : text) :
  (length (Py.strip_by p s) <= length s)%nat.
Proof.
  unfold Py.strip_by, Py.rstrip_by. rewrite length_rev.
  pose proof (lstrip_by_length p (rev (Py.lstrip_by p s))) as H1.
  rewrite length_rev in H1. pose proof (lstrip_by_length p s). lia.
Qed.

(** [s.split(c, 1)] puts [s] back together around its first [c]. *)
Lemma split_once_join (c : ascii) (s : text) :
  Py.mem c s = true ->
  s = fst (Py.split_once c s) ++ c :: snd (Py.split_once c s)
  /\ Py.mem c (fst (Py.split_once c s)) = false.
Proof.
  unfold Py.mem. induction s as [|d s IH]; cbn [existsb]; [discriminate|].
  cbn [Py.split_once]. rewrite (Ascii.eqb_sym d c).
  destruct (Ascii.eqb c d) eqn:Hd.
  - intros _. apply Ascii.eqb_eq in Hd. subst d. split; reflexivity.
  - cbn [orb]. intros H. destruct (IH H) as [Hs Hm].
    destruct (Py.split_once c s) as [a b]. cbn [fst snd] in *.
    split; [cbn [app]; f_equal; exact Hs|]. cbn [existsb]. rewrite Hd. exact Hm.
Qed.

Lemma split_once_keeps (c : ascii) (q : ascii -> bool) (s : text) :
  forallb q s = true ->
  forallb q (fst (Py.split_once c s)) = true
  /\ forallb q (snd (Py.split_once c s)) = true.
Proof.
  induction s as [|d s IH]; [split; reflexivity|].
  cbn [forallb Py.split_once]. intros H. apply andb_true_iff in H as [Hd Hs].
  destruct (Ascii.eqb d c).
  - split; [reflexivity | exact Hs].
  - destruct (IH Hs) as [Ha Hb]. destruct (Py.split_once c s) as [a b].
    cbn [fst snd] in *. split; [cbn; rewrite Hd; exact Ha | exact Hb].
Qed.

Lemma split_once_length (c : ascii) (s : text) :
  (length (fst (Py.split_once c s)) <= length s)%nat.
Proof.
  induction s as [|d s IH]; [cbn; lia|]. cbn [Py.split_once].
  destruct (Ascii.eqb d c); [cbn; lia|].
  destruct (Py.split_once c s) as [a b]. cbn [fst length] in *. lia.
Qed.

(** ** The resolved link *)

(** X8: for every page title and every match of the link grammar, the
    resolved link is the trimmed link group when that holds no ['#'];
    otherwise the trimmed link group is the page part, ['#'] and the
    resolved section put together, the page part holds no ['#'], and the
    resolved link is the page part, or the page title when the page part
    is empty. Unless it is the page title, the resolved link has at most
    256 characters, none of them ['#'], a line break or one of
    [| ] [ < > { }]; the resolved section holds none of the latter
    either. *)
Theorem resolved_link_parts (page_title subtext : text)
        (m : wikilink_match) :
  wikilink_search subtext = Some m ->
  let '(rlink, rsection, _) := resolve page_title m in
  let trimmed := Py.strip_ws (w_link m) in
  ((Py.mem "#"%char trimmed = false /\ rlink = trimmed /\ rsection = [])
   \/ exists page_part,
        trimmed = page_part ++ "#"%char :: rsection
        /\ Py.mem "#"%char page_part = false
        /\ rlink = (if Py.nonempty page_part then page_part
                    else page_title))
  /\ (rlink = page_title
      \/ (in_link_class rlink /\ (length rlink <= 256)%nat
          /\ Py.mem "#"%char rlink = false))
  /\ in_link_class rsection.
Proof.
  intros Hs. apply wikilink_search_sound in Hs
    as (_ & _ & _ & _ & Hcl & H256 & _).
  unfold resolve.
  assert (Hor : Py.or_else (w_link m) [] = w_link m)
    by (unfold Py.or_else; destruct (w_link m); reflexivity).
  rewrite Hor.
  set (trimmed := Py.strip_ws (w_link m)).
  assert (Htc : in_link_class trimmed) by (apply strip_by_keeps; exact Hcl).
  assert (Htl : (length trimmed <= 256)%nat).
  { pose proof (strip_by_length Py.isspace (w_link m)). unfold trimmed,
      Py.strip_ws. lia. }
  destruct (Py.mem "#"%char trimmed) eqn:Hmem.
  - destruct (split_once_join "#"%char trimmed Hmem) as [Hjoin Hno].
    destruct (split_once_keeps "#"%char link_class trimmed Htc) as [Ha Hb].
    pose proof (split_once_length "#"%char trimmed) as Hlen.
    destruct (Py.split_once "#"%char trimmed) as [l0 l1].
    cbn [fst snd] in *. cbv zeta.
    split; [right; exists l0; repeat split; assumption|].
    split; [|exact Hb].
    destruct (Py.nonempty l0); [right | left; reflexivity].
    repeat split; try assumption. lia.
  - cbv zeta. split; [left; repeat split|].
    split; [right; repeat split; assumption | reflexivity].
Qed.

Lemma resolved_link_parts_witness :
  exists m,
    wikilink_search (T "see [[ Apple#History |the fruit]].") = Some m
    /\ resolve (T "Page") m = (T "Apple", T "History", T "the fruit")
    /\ in_link_class (T "History").
Proof.
  eexists. split; [reflexivity|]. split; [reflexivity|].
  pose proof (resolved_link_parts (T "Page")
                (T "see [[ Apple#History |the fruit]].") _ eq_refl) as H.
  match type of H with
  | context [resolve ?p ?m] =>
      change (resolve p m) with (T "Apple", T "History", T "the fruit") in H
  end.
  cbv beta iota zeta in H. destruct H as (_ & _ & H). exact H.
Defined.

(** ** The normalised anchor *)

(** A word: not empty, and free of whitespace. *)
Definition is_word (w : text) : Prop :=
  w <> [] /\ forallb (fun c => negb (Py.isspace c)) w = true.

(** The normalisation applied to the anchor: line breaks become blanks,
    the text is trimmed, cut into words and joined with single blanks. *)
Definition normalise (a : text) : text :=
  Py.join (T " ") (Py.split_ws (Py.strip_ws (Py.replace newline " "%char a))).

Lemma resolve_anchor_normalised (page_title : text) (m : wikilink_match) :
  let '(rlink, _, ranchor) := resolve page_title m in
  ranchor = normalise (Py.opt_or_else (w_anchor m) rlink).
Proof.
  unfold resolve.
  destruct (Py.mem "#"%char (Py.strip_ws (Py.or_else (w_link m) [])));
    [destruct (Py.split_once _ _)|]; reflexivity.
Qed.

Lemma split_ws_acc_words (s : text) :
  forall cur,
    forallb (fun c => negb (Py.isspace c)) cur = true ->
    Forall is_word (Py.split_ws_acc cur s).
Proof.
  induction s as [|c s IH]; intros cur Hcur; cbn [Py.split_ws_acc].
  - destruct cur as [|d cur']; [constructor|].
    constructor; [|constructor]. split.
    + intros H. apply (f_equal (@length ascii)) in H.
      rewrite length_rev in H. discriminate H.
    + rewrite forallb_rev. exact Hcur.
  - destruct (Py.isspace c) eqn:Hc.
    + destruct cur as [|d cur']; [apply IH; reflexivity|].
      constructor; [|apply IH; reflexivity]. split.
      * intros H. apply (f_equal (@length ascii)) in H.
        rewrite length_rev in H. discriminate H.
      * rewrite forallb_rev. exact Hcur.
    + apply IH. cbn [forallb]. rewrite Hc. exact Hcur.
Qed.

Lemma split_ws_acc_word (w : text) :
  forallb (fun c => negb (Py.isspace c)) w = true ->
  forall cur rest,
    Py.split_ws_acc cur (w ++ rest) = Py.split_ws_acc (rev w ++ cur) rest.
Proof.
  induction w as [|c w IH]; intros Hw cur rest; [reflexivity|].
  cbn [forallb] in Hw. apply andb_true_iff in Hw as [Hc Hw].
  cbn [app Py.split_ws_acc]. destruct (Py.isspace c); [discriminate|].
  rewrite IH by exact Hw. cbn [rev]. rewrite <- app_assoc. reflexivity.
Qed.

Lemma split_ws_join (ws : list text) :
  Forall is_word ws -> Py.split_ws (Py.join (T " ") ws) = ws.
Proof.
  unfold Py.split_ws. induction 1 as [|w ws [Hne Hw] Hws IH]; [reflexivity|].
  destruct ws as [|w' ws'].
  - cbn [Py.join]. rewrite <- (app_nil_r w) at 1.
    rewrite split_ws_acc_word by exact Hw. cbn [Py.split_ws_acc].
    rewrite app_nil_r.
    destruct (rev w) as [|d r] eqn:Hr.
    + exfalso. apply Hne. rewrite <- (rev_involutive w), Hr. reflexivity.
    + rewrite <- Hr, rev_involutive. reflexivity.
  - change (Py.join (T " ") (w :: w' :: ws'))
      with (w ++ T " " ++ Py.join (T " ") (w' :: ws')).
    rewrite split_ws_acc_word by exact Hw. rewrite app_nil_r.
    cbn [T list_ascii_of_string app Py.split_ws_acc].
    change (Py.isspace " "%char) with true. cbv iota.
    destruct (rev w) as [|d r] eqn:Hr.
    + exfalso. apply Hne. rewrite <- (rev_involutive w), Hr. reflexivity.
    + rewrite <- Hr, rev_involutive. f_equal. exact IH.
Qed.

Lemma lstrip_by_id (p : ascii -> bool) (c : ascii) (s : text) :
  p c = false -> Py.lstrip_by p (c :: s) = c :: s.
Proof. intros H. cbn [Py.lstrip_by]. rewrite H. reflexivity. Qed.

Lemma join_head (ws : list text) (w : text) (c : ascii) (r : text) :
  w = c :: r -> exists r', Py.join (T " ") (w :: ws) = c :: r'.
Proof.
  intros ->. destruct ws as [|w' ws']; cbn [Py.join app]; eexists; reflexivity.
Qed.

Lemma join_rev_head (ws : list text) :
  forall w c r,
    Forall is_word ws -> rev w = c :: r ->
    exists w0 r',
      In w0 (w :: ws) /\ rev (Py.join (T " ") (w :: ws)) = hd c (rev w0) :: r'
      /\ rev w0 <> [].
Proof.
  induction ws as [|w' ws' IH]; intros w c r Hws Hr.
  - exists w, r. cbn [Py.join]. rewrite Hr. cbn [hd].
    split; [left; reflexivity|]. split; [reflexivity | discriminate].
  - inversion Hws as [|? ? [Hne' _] Hws']; subst.
    destruct (rev w') as [|c' r'0] eqn:Hr'.
    + exfalso. apply Hne'. rewrite <- (rev_involutive w'), Hr'. reflexivity.
    + destruct (IH w' c' r'0 Hws' Hr') as (w0 & r1 & Hin & Hrev & Hn0).
      exists w0. change (Py.join (T " ") (w :: w' :: ws'))
        with (w ++ T " " ++ Py.join (T " ") (w' :: ws')).
      destruct (rev w0) as [|x y] eqn:Hw0; [congruence|].
      cbn [hd] in Hrev |- *.
      eexists. split; [right; exact Hin|]. split; [|discriminate].
      change (Py.join (T " ") (w :: w' :: ws'))
        with (w ++ T " " ++ Py.join (T " ") (w' :: ws')).
      unfold text in *. rewrite !rev_app_distr, Hrev. cbn [app]. reflexivity.
Qed.

Lemma strip_ws_join (ws : list text) :
  Forall is_word ws ->
  Py.strip_ws (Py.join (T " ") ws) = Py.join (T " ") ws.
Proof.
  intros Hws. destruct ws as [|w ws']; [reflexivity|].
  inversion Hws as [|? ? [Hne Hw] Hws']; subst.
  destruct w as [|c r] eqn:Hweq; [congruence|].
  destruct (join_head ws' (c :: r) c r eq_refl) as (r' & Hj).
  unfold Py.strip_ws, Py.strip_by, Py.rstrip_by. rewrite Hj.
  assert (Hc : Py.isspace c = false).
  { cbn [forallb] in Hw. apply andb_true_iff in Hw as [Hc _].
    destruct (Py.isspace c); [discriminate | reflexivity]. }
  rewrite (lstrip_by_id _ _ _ Hc). rewrite <- Hj.
  destruct (rev (c :: r)) as [|d q] eqn:Hr.
  { exfalso. apply (f_equal (@length ascii)) in Hr.
    rewrite length_rev in Hr. discriminate Hr. }
  destruct (join_rev_head ws' (c :: r) d q Hws' Hr)
    as (w0 & r1 & Hin & Hrev & Hn0).
  unfold text in *. rewrite Hrev.
  assert (Hw0 : is_word w0).
  { destruct Hin as [<-|Hin]; [split; [discriminate | exact Hw]|].
    rewrite Forall_forall in Hws'. apply Hws'. exact Hin. }
  destruct (rev w0) as [|x y] eqn:Hx; [congruence|]. cbn [hd] in Hrev |- *.
  assert (Hxs : Py.isspace x = false).
  { destruct Hw0 as [_ Hall]. rewrite <- forallb_rev, Hx in Hall.
    cbn [forallb] in Hall. apply andb_true_iff in Hall as [Hxx _].
    destruct (Py.isspace x); [discriminate | reflexivity]. }
  rewrite (lstrip_by_id _ _ _ Hxs). rewrite <- Hrev. apply rev_involutive.
Qed.

Lemma join_chars (ws : list text) (q : ascii -> bool) :
  q " "%char = true ->
  Forall (fun w => forallb q w = true) ws ->
  forallb q (Py.join (T " ") ws) = true.
Proof.
  intros Hq. induction 1 as [|w ws Hw Hws IH]; [reflexivity|].
  destruct ws as [|w' ws']; [exact Hw|].
  change (Py.join (T " ") (w :: w' :: ws'))
    with (w ++ T " " ++ Py.join (T " ") (w' :: ws')).
  rewrite !forallb_app, Hw, IH. cbn. rewrite Hq. reflexivity.
Qed.

Lemma replace_id (a b : ascii) (s : text) :
  forallb (fun c => negb (Ascii.eqb c a)) s = true -> Py.replace a b s = s.
Proof.
  unfold Py.replace. induction s as [|c s IH]; [reflexivity|].
  cbn [forallb map]. intros H. apply andb_true_iff in H as [Hc Hs].
  destruct (Ascii.eqb c a); [discriminate|]. f_equal. apply IH. exact Hs.
Qed.

Lemma normalise_words (a : text) :
  exists ws, normalise a = Py.join (T " ") ws /\ Forall is_word ws.
Proof.
  unfold normalise.
  exists (Py.split_ws (Py.strip_ws (Py.replace newline " "%char a))).
  split; [reflexivity|]. apply split_ws_acc_words. reflexivity.
Qed.

Lemma normalise_join (ws : list text) :
  Forall is_word ws ->
  normalise (Py.join (T " ") ws) = Py.join (T " ") ws.
Proof.
  intros Hws. unfold normalise.
  rewrite replace_id.
  - rewrite strip_ws_join by exact Hws. rewrite split_ws_join by exact Hws.
    reflexivity.
  - apply join_chars; [reflexivity|].
    eapply Forall_impl; [|exact Hws]. cbv beta. intros w [_ Hw].
    rewrite forallb_forall in Hw |- *. intros c Hc. specialize (Hw c Hc).
    destruct (Ascii.eqb c newline) eqn:Hn; [|reflexivity].
    apply Ascii.eqb_eq in Hn. subst c. discriminate Hw.
Qed.

(** X9: the anchor of every resolved link is in normal form: it is a list
    of words joined by single blanks, each word non-empty and free of
    whitespace (so the anchor holds no line break, no leading or trailing
    whitespace and no two blanks in a row); normalising it again changes
    nothing. *)
Theorem resolved_anchor_normal_form (page_title : text)
        (m : wikilink_match) :
  let '(_, _, ranchor) := resolve page_title m in
  (exists ws, ranchor = Py.join (T " ") ws /\ Forall is_word ws)
  /\ normalise ranchor = ranchor.
Proof.
  pose proof (resolve_anchor_normalised page_title m) as H.
  destruct (resolve page_title m) as [[rlink rsection] ranchor].
  destruct (normalise_words (Py.opt_or_else (w_anchor m) rlink))
    as (ws & Hj & Hws).
  rewrite H, Hj. split; [exists ws; split; [reflexivity | exact Hws]|].
  apply normalise_join. exact Hws.
Qed.

(** ** One turn of the loop on a window *)

(** X10: whatever the page, the source, the sections, the loop state, the
    candidate and the window, a turn of the loop never enters the
    debugger. When it yields, the grammar matched the window, the span is
    that of the [total] group counted from the start of the window, it is
    at least four characters wide and lies within the window, and the link
    of the result is not empty. *)
Theorem on_window_outcome (page_title source : text)
        (limits : list SectionLimits) (st : loop_state)
        (simple : simple_match) (lo hi : Z) :
  match fst (on_window page_title source limits st simple lo hi) with
  | Breakpoint => False
  | Skipped => True
  | Yielded r =>
      exists m,
        wikilink_search (Py.slice source lo hi) = Some m
        /\ span r = mkSpan (w_total_start m) (w_total_end m)
        /\ 0 <= span_begin (span r)
        /\ span_begin (span r) + 4 <= span_end (span r)
        /\ span_end (span r) <= len (Py.slice source lo hi)
        /\ link (data r) <> []
  end.
Proof.
  unfold on_window.
  destruct (wikilink_search (Py.slice source lo hi)) as [m|] eqn:Hs.
  - pose proof (wikilink_search_sound _ _ Hs) as (Hoff & _).
    unfold on_match.
    destruct (resolve page_title m) as [[rlink rsection] ranchor].
    destruct (attribute limits (last_section_seen st) (w_total_start m))
      as [[[number sname] slevel] seen].
    destruct rlink as [|c r]; cbn; [exact I|].
    exists m. repeat split; try lia. discriminate.
  - cbn [fst]. rewrite on_mismatch_skips. exact I.
Qed.

(** ** [reverse_position] *)

(** X11: for a text [s] and an offset [p] into its reversal,
    [reverse_position(p, len(s))] is [len(s) - 1 - p], an offset into [s]
    that holds the character the reversal holds at [p]; applying the
    function again gives [p] back. The value [-1] is passed through, and
    any other offset with an empty text divides by zero. *)
Theorem reverse_position_mirror (s : text) (p : Z) :
  0 <= p < len s ->
  let q := len s - 1 - p in
  reverse_position p (len s) = inr q
  /\ 0 <= q < len s
  /\ nth_error s (Z.to_nat q) = nth_error (rev s) (Z.to_nat p)
  /\ reverse_position q (len s) = inr p.
Proof.
  intros Hp q.
  assert (Hmod : forall x, 0 <= x < len s ->
                   reverse_position x (len s) = inr (len s - 1 - x)).
  { intros x Hx. unfold reverse_position.
    destruct (x =? -1) eqn:H1; [apply Z.eqb_eq in H1; lia|].
    destruct (len s =? 0) eqn:H0; [apply Z.eqb_eq in H0; lia|].
    unfold ret. f_equal.
    replace (- (x + 1)) with ((len s - 1 - x) + (-1) * len s) by lia.
    rewrite Z.mod_add by lia. apply Z.mod_small. lia. }
  split; [apply Hmod; exact Hp|].
  split; [unfold q; lia|].
  split.
  - rewrite nth_error_rev. unfold len in *.
    destruct (Nat.ltb_spec (Z.to_nat p) (length s)) as [Hlt|Hge]; [|lia].
    f_equal. unfold q. lia.
  - rewrite Hmod by (unfold q; lia). f_equal. unfold q. lia.
Qed.

Lemma reverse_position_mirror_witness :
  0 <= 1 < len (T "abcdef")
  /\ reverse_position 1 (len (T "abcdef")) = inr 4
  /\ nth_error (T "abcdef") 4 = nth_error (rev (T "abcdef")) 1.
Proof.
  assert (H : 0 <= 1 < len (T "abcdef")) by (unfold len; cbn; lia).
  split; [exact H|].
  destruct (reverse_position_mirror (T "abcdef") 1 H) as (H1 & _ & H3 & _).
  split; [exact H1 | exact H3].
Defined.

(** The two edge cases of [reverse_position]: the value [-1] (no match) is
    returned unchanged whatever the length, and every other offset with
    length 0 raises [ZeroDivisionError]. *)
Lemma reverse_position_edges (p n : Z) :
  reverse_position (-1) n = inr (-1)
  /\ (p <> -1 -> reverse_position p 0 = inl ZeroDivisionError).
Proof.
  split; [reflexivity|]. intros Hp. unfold reverse_position.
  destruct (p =? -1) eqn:H1; [apply Z.eqb_eq in H1; contradiction|].
  reflexivity.
Qed.

(** ** The whitespace searches *)

Lemma space_search_from_sound (l : text) :
  forall i j, space_search_from l i = Some j ->
    exists a c b,
      l = a ++ c :: b /\ j = i + len a /\ all_non_space a
      /\ re_space c = true.
Proof.
  induction l as [|c l IH]; intros i j; cbn [space_search_from];
    [discriminate|].
  destruct (re_space c) eqn:Hc.
  - intros H; inversion H; subst. exists [], c, l.
    repeat split; [unfold len; cbn; lia | exact Hc].
  - intros H. apply IH in H as (a & c0 & b & Hl & Hj & Ha & Hc0).
    exists (c :: a), c0, b. subst l.
    repeat split; try assumption.
    + unfold len in *. cbn [length]. lia.
    + unfold all_non_space, non_space. cbn [forallb]. rewrite Hc. exact Ha.
Qed.

Lemma space_search_from_none (l : text) :
  forall i, space_search_from l i = None -> all_non_space l.
Proof.
  induction l as [|c l IH]; intros i; cbn [space_search_from];
    [reflexivity|].
  destruct (re_space c) eqn:Hc; [discriminate|].
  intros H. unfold all_non_space, non_space. cbn [forallb]. rewrite Hc.
  exact (IH _ H).
Qed.

Lemma space_rtl_search_from_none (l : text) :
  all_non_space l -> forall i, space_rtl_search_from l i = None.
Proof.
  induction l as [|c l IH]; intros Hl i; [reflexivity|].
  unfold all_non_space, non_space in Hl. cbn [forallb] in Hl.
  apply andb_true_iff in Hl as [Hc Hl].
  cbn [space_rtl_search_from]. rewrite (IH Hl).
  destruct (re_space c); [discriminate | reflexivity].
Qed.

Lemma space_rtl_search_from_last (a b : text) (c : ascii) :
  re_space c = true -> all_non_space b ->
  forall i, space_rtl_search_from (a ++ c :: b) i = Some (i + len a).
Proof.
  intros Hc Hb. induction a as [|d a IH]; intros i.
  - cbn [app space_rtl_search_from].
    rewrite (space_rtl_search_from_none b Hb), Hc. f_equal.
    unfold len. cbn. lia.
  - cbn [app space_rtl_search_from]. rewrite IH. f_equal.
    unfold len. cbn [length]. lia.
Qed.

(** X12: the search from the right agrees with the search from the left
    on the reversed text, the way the comments of the module describe it:
    when the reversed text has its first whitespace at [p], the text has
    its last whitespace at [reverse_position(p, len(s))]; when the
    reversed text has none, neither has the text. *)
Theorem space_rtl_search_is_reversed_search (s : text) :
  match space_search (rev s) with
  | Some p =>
      exists q, reverse_position p (len s) = inr q
                /\ space_rtl_search s = Some q
  | None => space_rtl_search s = None
  end.
Proof.
  unfold space_search, space_rtl_search.
  destruct (space_search_from (rev s) 0) as [p|] eqn:Hf.
  - apply space_search_from_sound in Hf as (a & c & b & Hl & Hp & Ha & Hc).
    assert (Hs : s = rev b ++ c :: rev a).
    { rewrite <- (rev_involutive s), Hl, rev_app_distr. cbn [rev].
      rewrite <- app_assoc. reflexivity. }
    assert (Hlen : len s = len b + 1 + len a).
    { rewrite Hs. unfold len. rewrite length_app. cbn [length].
      rewrite !length_rev. lia. }
    exists (len b). split.
    + unfold reverse_position. unfold len in *.
      destruct (p =? -1) eqn:H1; [apply Z.eqb_eq in H1; lia|].
      destruct (Z.of_nat (length s) =? 0) eqn:H0; [apply Z.eqb_eq in H0; lia|].
      unfold ret. f_equal.
      replace (- (p + 1))
        with (Z.of_nat (length b) + (-1) * Z.of_nat (length s)) by lia.
      rewrite Z.mod_add by lia. apply Z.mod_small. lia.
    + rewrite Hs at 1. rewrite space_rtl_search_from_last.
      * f_equal. unfold len. rewrite length_rev. lia.
      * exact Hc.
      * unfold all_non_space. rewrite forallb_rev. exact Ha.
  - apply space_search_from_none in Hf.
    apply space_rtl_search_from_none.
    unfold all_non_space in *. rewrite forallb_rev in Hf. exact Hf.
Qed.

(** ** The right boundary of the window *)

(** X13: for a candidate ending at [e] inside the text, the right boundary
    of the window is at [e] or later and no whitespace lies between [e]
    and the boundary. Either the boundary is the offset of a whitespace
    character, or no whitespace follows the candidate down to the end of
    the text, and then the boundary is [e] itself: text written right
    after the closing brackets is then left out of the window. *)
Theorem widen_right_boundary (source : text) (e : nat) :
  (e <= length source)%nat ->
  let r := widen_right source (Z.of_nat e) in
  all_non_space (Py.slice source (Z.of_nat e) r)
  /\ ((exists c, nth_error source (Z.to_nat r) = Some c
                 /\ re_space c = true /\ Z.of_nat e <= r < len source)
      \/ (r = Z.of_nat e
          /\ all_non_space (Py.slice_from source (Z.of_nat e)))).
Proof.
  intros He r. unfold r, widen_right.
  rewrite slice_from_skipn by lia. rewrite Nat2Z.id.
  unfold space_search.
  destruct (space_search_from (skipn e source) 0) as [p|] eqn:Hf.
  - apply space_search_from_sound in Hf as (a & c & b & Hl & Hp & Ha & Hc).
    assert (Hlen : length source = (e + length a + S (length b))%nat).
    { assert (H : length (skipn e source) = length (a ++ c :: b))
        by (rewrite Hl; reflexivity).
      rewrite length_skipn, length_app in H. cbn [length] in H. lia. }
    subst p. split.
    + replace (0 + len a) with (len a) by lia.
      assert (Hl' : skipn e source = a ++ c :: b) by exact Hl.
      rewrite (skipn_slice source a (c :: b) e Hl' He). exact Ha.
    + left. exists c. unfold len in *.
      replace (Z.to_nat (Z.of_nat e + (0 + Z.of_nat (length a))))
        with (e + length a)%nat by lia.
      rewrite <- nth_error_skipn, Hl.
      rewrite nth_error_app2 by lia. rewrite Nat.sub_diag.
      repeat split; try assumption; lia.
  - apply space_search_from_none in Hf. split.
    + unfold Py.slice, Py.norm_index.
      destruct (Z.of_nat e <? 0); rewrite Z.sub_diag; reflexivity.
    + right. split; [reflexivity | exact Hf].
Qed.

Lemma widen_right_boundary_witness :
  (9 <= length (T "[[apple]]s pie"))%nat
  /\ all_non_space
       (Py.slice (T "[[apple]]s pie") 9
                 (widen_right (T "[[apple]]s pie") 9))
  /\ widen_right (T "[[apple]]s pie") 9 = 10
  /\ widen_right (T "[[apple]]s") 9 = 9.
Proof.
  assert (H : (9 <= length (T "[[apple]]s pie"))%nat) by (cbn; lia).
  split; [exact H|].
  destruct (widen_right_boundary (T "[[apple]]s pie") 9 H) as [H1 _].
  split; [exact H1|]. split; reflexivity.
Defined.

(** ** Attribution when the preamble is among the sections *)

Lemma covers_first_containing (secs : list (CaptureResult Section_)) :
  forall idx a b t,
    covers 1 a b (spans secs) -> a <= t <= b ->
    exists s,
      first_containing (enumerate_limits idx secs) t = Some s
      /\ idx <= sl_number s.
Proof.
  induction secs as [|c rest IH]; intros idx a b t Hc Ht; [destruct Hc|].
  cbn [spans map covers] in Hc. destruct Hc as (Hb & Hle & Hrest).
  cbn [enumerate_limits first_containing sl_begin sl_end].
  destruct (t <=? span_end (span c)) eqn:He.
  - apply Z.leb_le in He. rewrite Hb.
    destruct (a <=? t) eqn:Ha; [|apply Z.leb_gt in Ha; lia].
    eexists. split; [reflexivity|]. cbn [sl_number]. lia.
  - apply Z.leb_gt in He. rewrite andb_false_r.
    destruct rest as [|c' rest'].
    + cbn [map] in Hrest. lia.
    + destruct (IH (idx + 1) (span_end (span c) + 1) b t Hrest ltac:(lia))
        as (s & Hs & Hn).
      exists s. split; [exact Hs | lia].
Qed.

(** X14: when the section list passed to the extractor includes the
    preamble ([sections(D, include_preamble=True)]) and the document does
    not begin with a header line, every offset of the document is
    attributed to a numbered section: the incipit sentinel 0 is never
    used, and an offset up to the end of the preamble gets number 1, with
    the empty name and level 0 of the preamble. *)
Theorem attribution_with_preamble (D : text) (t : Z) :
  header_at D = None ->
  0 <= t <= len D ->
  let limits := sections_limits_of (sections D true) in
  let '(number, sname, slevel, _) := attribute limits 0 t in
  1 <= number
  /\ (t <= body_end_before D (header_finditer D) ->
      (number, sname, slevel) = (1, [], 0)).
Proof.
  intros Hnone Ht limits.
  pose proof (sections_true_covers D Hnone) as Hc.
  destruct (covers_first_containing (sections D true) 1 0 (len D) t Hc Ht)
    as (s & Hs & Hn).
  unfold attribute. rewrite slice_from_skipn by lia. cbn [Z.to_nat skipn].
  fold (sections_limits_of (sections D true)) in Hs. fold limits in Hs.
  rewrite Hs. split; [exact Hn|].
  intros Hpre. unfold limits, sections_limits_of, sections in Hs.
  cbn [app enumerate_limits first_containing sl_begin sl_end data span
       span_begin span_end name level Section_init] in Hs.
  destruct (0 <=? t) eqn:H0; [|apply Z.leb_gt in H0; lia].
  destruct (t <=? body_end_before D (header_finditer D)) eqn:He;
    [|apply Z.leb_gt in He; lia].
  cbn [andb] in Hs. inversion Hs; subst s. reflexivity.
Qed.

Lemma attribution_with_preamble_witness :
  header_at doc_two = None
  /\ 0 <= 1 <= len doc_two
  /\ (let '(number, sname, slevel, _) :=
         attribute (sections_limits_of (sections doc_two true)) 0 1 in
       1 <= number
       /\ (1 <= body_end_before doc_two (header_finditer doc_two) ->
           (number, sname, slevel) = (1, [], 0)))
  /\ attribute (sections_limits_of (sections doc_two false)) 0 1
     = (0, incipit, 0, 0).
Proof.
  split; [reflexivity|].
  assert (Ht : 0 <= 1 <= len doc_two) by (unfold len; cbn; lia).
  split; [exact Ht|].
  split; [exact (attribution_with_preamble doc_two 1 eq_refl Ht)|].
  reflexivity.
Defined.

(** ** Reading [full_body], whatever the level *)

(** X15: for a section built with any level, every read of [full_body]
    returns the string of the first read; for the preamble (level 0) that
    string is the body itself, without a header line. *)
Theorem full_body_reads_stable (sname : text) (slevel : Z) (sbody : text)
        (n : nat) :
  let s := Section_init sname slevel sbody in
  full_body_reads n s = repeat (fst (full_body s)) n
  /\ (slevel = 0 -> fst (full_body s) = sbody).
Proof.
  intros s. split.
  - destruct n as [|n]; [reflexivity|].
    cbn [full_body_reads repeat].
    destruct (full_body s) as [v s'] eqn:Hfb. cbn [fst]. f_equal.
    apply full_body_cached.
    unfold full_body, s, Section_init in Hfb. cbn [_full_body] in Hfb.
    inversion Hfb; subst. reflexivity.
  - intros ->. reflexivity.
Qed.

Import Captures.

(** ** References and templates *)

(** In order and disjoint, from [lo] on. *)
Fixpoint captures_chain {A} (lo : Z) (cs : list (CaptureResult A)) : Prop :=
  match cs with
  | [] => True
  | c :: rest =>
      lo <= span_begin (span c) /\ span_begin (span c) < span_end (span c)
      /\ captures_chain (span_end (span c)) rest
  end.

Lemma captures_chain_weaken {A} (lo lo' : Z) (cs : list (CaptureResult A)) :
  lo' <= lo -> captures_chain lo cs -> captures_chain lo' cs.
Proof.
  destruct cs as [|c rest]; cbn [captures_chain]; [trivial|].
  intros Hlo (H1 & H2 & H3). repeat split; try assumption; lia.
Qed.

Section CaptureScan.

Variable at_ : text -> option nat.
Hypothesis at_bound :
  forall l n, at_ l = Some n -> (1 <= n <= length l)%nat.

(** A capture of the scan of [D]: the pattern matches at its offset, and
    its data is the matched text. *)
Definition captured (D : text) (c : CaptureResult text) : Prop :=
  exists p n,
    span c = mkSpan (Z.of_nat p) (Z.of_nat (p + n))
    /\ at_ (skipn p D) = Some n
    /\ data c = firstn n (skipn p D)
    /\ (p + n <= length D)%nat.

Lemma capture_scan_sound (l : text) :
  forall pre skip,
    Forall (captured (pre ++ l)) (capture_scan at_ skip (length pre) l)
    /\ captures_chain (Z.of_nat (length pre + skip))
                      (capture_scan at_ skip (length pre) l).
Proof.
  induction l as [|c r IH]; intros pre skip;
    [split; [constructor | exact I]|].
  assert (Hrec : forall skip',
             Forall (captured (pre ++ c :: r))
                    (capture_scan at_ skip' (S (length pre)) r)
             /\ captures_chain (Z.of_nat (S (length pre) + skip'))
                               (capture_scan at_ skip' (S (length pre)) r)).
  { intros skip'. specialize (IH (pre ++ [c]) skip').
    rewrite length_app, <- app_assoc in IH. cbn [length app] in IH.
    replace (length pre + 1)%nat with (S (length pre)) in IH by lia.
    exact IH. }
  cbn [capture_scan]. destruct skip as [|s].
  - destruct (at_ (c :: r)) as [n|] eqn:Hat.
    + destruct (Hrec (n - 1)%nat) as [Hsh Hch].
      pose proof (at_bound _ _ Hat) as Hn.
      split.
      * constructor; [|exact Hsh].
        exists (length pre), n. cbn [span data].
        rewrite skipn_app_exact, length_app.
        repeat split; try assumption. lia.
      * cbn [captures_chain span span_begin span_end].
        repeat split; try lia.
        eapply captures_chain_weaken; [|exact Hch]. lia.
    + destruct (Hrec O) as [Hsh Hch]. split; [exact Hsh|].
      eapply captures_chain_weaken; [|exact Hch]. lia.
  - destruct (Hrec s) as [Hsh Hch]. split; [exact Hsh|].
    eapply captures_chain_weaken; [|exact Hch]. lia.
Qed.

End CaptureScan.

Lemma lazy_until_sound (close l : text) :
  forall n0 n, lazy_until close l n0 = Some n ->
    (n0 <= n)%nat
    /\ starts_with close (skipn (n - n0) l) = true
    /\ forall j, (j < n - n0)%nat -> starts_with close (skipn j l) = false.
Proof.
  induction l as [|c r IH]; intros n0 n; cbn [lazy_until].
  - destruct (starts_with close []) eqn:Hs; [|discriminate].
    intros H; inversion H; subst. rewrite Nat.sub_diag.
    repeat split; [lia | exact Hs | intros j Hj; lia].
  - destruct (starts_with close (c :: r)) eqn:Hs.
    + intros H; inversion H; subst. rewrite Nat.sub_diag.
      repeat split; [lia | exact Hs | intros j Hj; lia].
    + intros H. apply IH in H as (Hle & Hend & Hbefore).
      replace (n - n0)%nat with (S (n - S n0)) by lia.
      repeat split; [lia | exact Hend |].
      intros [|j] Hj; [exact Hs|]. cbn [skipn]. apply Hbefore. lia.
Qed.

Lemma template_at_sound (l : text) (n : nat) :
  template_at l = Some n ->
  starts_with (T "{{") l = true
  /\ (4 <= n <= length l)%nat
  /\ starts_with (T "}}") (skipn (n - 2) l) = true
  /\ forall j, (2 <= j < n - 2)%nat -> starts_with (T "}}") (skipn j l) = false.
Proof.
  unfold template_at. destruct (starts_with (T "{{") l) eqn:Hs; [|discriminate].
  destruct (lazy_until (T "}}") (skipn 2 l) O) as [k|] eqn:Hk; [|discriminate].
  intros H; inversion H; subst n. clear H.
  apply lazy_until_sound in Hk as (_ & Hend & Hbefore).
  rewrite Nat.sub_0_r in Hend, Hbefore. rewrite skipn_skipn in Hend.
  pose proof (starts_with_length _ _ Hend) as Hlen.
  rewrite length_skipn in Hlen. cbn [T list_ascii_of_string length] in Hlen.
  split; [reflexivity|]. split; [lia|]. split.
  - match goal with
    | |- starts_with _ (skipn ?x _) = _ =>
        replace x with (k + 2)%nat by lia
    end.
    exact Hend.
  - intros j Hj. specialize (Hbefore (j - 2)%nat ltac:(lia)).
    rewrite skipn_skipn in Hbefore.
    replace (j - 2 + 2)%nat with j in Hbefore by lia. exact Hbefore.
Qed.

(** X16: every template yielded by [templates(D)] is the text of the
    document at its span, which lies within the document and is at least
    four characters wide; it opens with two opening braces and closes with
    two closing braces, and no pair of closing braces starts earlier inside
    it: a template ends at the first closing pair, also when another
    template is nested in it. The templates come in document order and do
    not overlap. *)
Theorem templates_shape (D : text) :
  Forall (fun c =>
            exists b e,
              span c = mkSpan (Z.of_nat b) (Z.of_nat e)
              /\ (b + 4 <= e <= length D)%nat
              /\ data c = Py.slice D (Z.of_nat b) (Z.of_nat e)
              /\ starts_with (T "{{") (data c) = true
              /\ starts_with (T "}}") (skipn (e - 2) D) = true
              /\ forall j, (b + 2 <= j < e - 2)%nat ->
                           starts_with (T "}}") (skipn j D) = false)
         (templates D)
  /\ captures_chain 0 (templates D).
Proof.
  assert (Hb : forall l n, template_at l = Some n -> (1 <= n <= length l)%nat).
  { intros l n H. apply template_at_sound in H as (_ & H & _). lia. }
  destruct (capture_scan_sound template_at Hb D [] O) as [Hall Hch].
  split; [|exact Hch].
  eapply Forall_impl; [|exact Hall]. cbv beta.
  intros c (p & n & Hspan & Hat & Hdata & Hlen). cbn [app] in *.
  unfold text in *.
  apply template_at_sound in Hat as (Hopen & Hn & Hclose & Hnone).
  exists p, (p + n)%nat.
  split; [exact Hspan|]. split; [lia|].
  split; [rewrite Hdata, slice_firstn_skipn by lia; f_equal; lia|].
  split.
  - rewrite Hdata. rewrite (starts_with_split _ _ Hopen).
    change (length (T "{{")) with 2%nat.
    destruct n as [|[|n]]; try lia. reflexivity.
  - split.
    + rewrite skipn_skipn in Hclose.
      replace (p + n - 2)%nat with (n - 2 + p)%nat by lia. exact Hclose.
    + intros j Hj. specialize (Hnone (j - p)%nat ltac:(lia)).
      rewrite skipn_skipn in Hnone.
      replace (j - p + p)%nat with j in Hnone by lia. exact Hnone.
Qed.

Lemma starts_with_nocase_length (pre l : text) :
  starts_with_nocase pre l = true -> (length pre <= length l)%nat.
Proof.
  revert l; induction pre as [|a pre IH]; intros [|b l]; simpl;
    try lia; try discriminate.
  intros H. apply andb_true_iff in H as [_ H]. apply IH in H. lia.
Qed.

Lemma starts_with_nocase_firstn (pre l : text) (n : nat) :
  (length pre <= n)%nat ->
  starts_with_nocase pre (firstn n l) = starts_with_nocase pre l.
Proof.
  revert l n; induction pre as [|a pre IH]; intros l n Hn; [reflexivity|].
  destruct n as [|n]; [cbn in Hn; lia|].
  destruct l as [|b l]; [reflexivity|].
  cbn [firstn starts_with_nocase]. f_equal. apply IH. cbn in Hn. lia.
Qed.

Lemma lazy_until_nocase_sound (close l : text) :
  forall n0 n, lazy_until_nocase close l n0 = Some n ->
    (n0 <= n)%nat
    /\ starts_with_nocase close (skipn (n - n0) l) = true
    /\ forall j, (j < n - n0)%nat ->
                 starts_with_nocase close (skipn j l) = false.
Proof.
  induction l as [|c r IH]; intros n0 n; cbn [lazy_until_nocase].
  - destruct (starts_with_nocase close []) eqn:Hs; [|discriminate].
    intros H; inversion H; subst. rewrite Nat.sub_diag.
    repeat split; [lia | exact Hs | intros j Hj; lia].
  - destruct (starts_with_nocase close (c :: r)) eqn:Hs.
    + intros H; inversion H; subst. rewrite Nat.sub_diag.
      repeat split; [lia | exact Hs | intros j Hj; lia].
    + intros H. apply IH in H as (Hle & Hend & Hbefore).
      replace (n - n0)%nat with (S (n - S n0)) by lia.
      repeat split; [lia | exact Hend |].
      intros [|j] Hj; [exact Hs|]. cbn [skipn]. apply Hbefore. lia.
Qed.

Lemma reference_at_sound (l : text) (n : nat) :
  reference_at l = Some n ->
  starts_with_nocase (T "<ref") l = true
  /\ (10 <= n <= length l)%nat
  /\ starts_with_nocase (T "</ref>") (skipn (n - 6) l) = true
  /\ forall j, (4 <= j < n - 6)%nat ->
               starts_with_nocase (T "</ref>") (skipn j l) = false.
Proof.
  unfold reference_at.
  destruct (starts_with_nocase (T "<ref") l) eqn:Hs; [|discriminate].
  destruct (lazy_until_nocase (T "</ref>") (skipn 4 l) O) as [k|] eqn:Hk;
    [|discriminate].
  intros H; inversion H; subst n. clear H.
  apply lazy_until_nocase_sound in Hk as (_ & Hend & Hbefore).
  rewrite Nat.sub_0_r in Hend, Hbefore. rewrite skipn_skipn in Hend.
  pose proof (starts_with_nocase_length _ _ Hend) as Hlen.
  rewrite length_skipn in Hlen. cbn [T list_ascii_of_string length] in Hlen.
  split; [reflexivity|]. split; [lia|]. split.
  - match goal with
    | |- starts_with_nocase _ (skipn ?x _) = _ =>
        replace x with (k + 4)%nat by lia
    end.
    exact Hend.
  - intros j Hj. specialize (Hbefore (j - 4)%nat ltac:(lia)).
    rewrite skipn_skipn in Hbefore.
    replace (j - 4 + 4)%nat with j in Hbefore by lia. exact Hbefore.
Qed.

(** X17: every reference yielded by [references(D)] is the text of the
    document at its span, which lies within the document; it opens with
    [<ref] and closes with [</ref>], in any mix of upper and lower case,
    and no [</ref>] starts earlier inside it: a reference ends at the
    first closing tag. The references come in document order and do not
    overlap. *)
Theorem references_shape (D : text) :
  Forall (fun c =>
            exists b e,
              span c = mkSpan (Z.of_nat b) (Z.of_nat e)
              /\ (b + 10 <= e <= length D)%nat
              /\ data c = Py.slice D (Z.of_nat b) (Z.of_nat e)
              /\ starts_with_nocase (T "<ref") (data c) = true
              /\ starts_with_nocase (T "</ref>") (skipn (e - 6) D) = true
              /\ forall j, (b + 4 <= j < e - 6)%nat ->
                           starts_with_nocase (T "</ref>") (skipn j D)
                           = false)
         (references D)
  /\ captures_chain 0 (references D).
Proof.
  assert (Hb : forall l n, reference_at l = Some n -> (1 <= n <= length l)%nat).
  { intros l n H. apply reference_at_sound in H as (_ & H & _). lia. }
  destruct (capture_scan_sound reference_at Hb D [] O) as [Hall Hch].
  split; [|exact Hch].
  eapply Forall_impl; [|exact Hall]. cbv beta.
  intros c (p & n & Hspan & Hat & Hdata & Hlen). cbn [app] in *.
  unfold text in *.
  apply reference_at_sound in Hat as (Hopen & Hn & Hclose & Hnone).
  exists p, (p + n)%nat.
  split; [exact Hspan|]. split; [lia|].
  split; [rewrite Hdata, slice_firstn_skipn by lia; f_equal; lia|].
  split.
  - rewrite Hdata. rewrite starts_with_nocase_firstn; [exact Hopen|].
    cbn [T list_ascii_of_string length]. lia.
  - split.
    + rewrite skipn_skipn in Hclose.
      replace (p + n - 6)%nat with (n - 6 + p)%nat by lia. exact Hclose.
    + intros j Hj. specialize (Hnone (j - p)%nat ltac:(lia)).
      rewrite skipn_skipn in Hnone.
      replace (j - p + p)%nat with j in Hnone by lia. exact Hnone.
Qed.

Section CaptureComplete.

Variable at_ : text -> option nat.
Hypothesis at_bound :
  forall l n, at_ l = Some n -> (1 <= n <= length l)%nat.

(** The scan misses no match: an offset where the pattern matches, past
    the part still covered by the previous match, lies within the span of
    a capture. *)
Lemma capture_scan_covers (l : text) :
  forall (pre : text) skip q n,
    at_ (skipn q l) = Some n -> (skip <= q)%nat ->
    exists c,
      In c (capture_scan at_ skip (length pre) l)
      /\ span_begin (span c) <= Z.of_nat (length pre + q)
         < span_end (span c).
Proof.
  induction l as [|ch r IH]; intros pre skip q n Hat Hq.
  - destruct q; cbn [skipn] in Hat; apply at_bound in Hat; cbn in Hat; lia.
  - assert (Hrec : forall skip' q',
               q = S q' -> (skip' <= q')%nat ->
               exists c,
                 In c (capture_scan at_ skip' (S (length pre)) r)
                 /\ span_begin (span c) <= Z.of_nat (length pre + q)
                    < span_end (span c)).
    { intros skip' q' -> Hq'. cbn [skipn] in Hat.
      destruct (IH (pre ++ [ch]) skip' q' n Hat Hq') as (c & Hin & Hc).
      rewrite length_app in Hin, Hc. cbn [length] in Hin, Hc.
      replace (length pre + 1)%nat with (S (length pre)) in Hin by lia.
      exists c. split; [exact Hin | lia]. }
    cbn [capture_scan]. destruct skip as [|s].
    + destruct (at_ (ch :: r)) as [m|] eqn:Hm.
      * pose proof (at_bound _ _ Hm) as Hmb.
        destruct (Nat.lt_ge_cases q m) as [Hlt|Hge].
        -- eexists. split; [left; reflexivity|].
           cbn [span span_begin span_end]. lia.
        -- destruct q as [|q']; [lia|].
           destruct (Hrec (m - 1)%nat q' eq_refl ltac:(lia)) as (c & Hin & Hc).
           exists c. split; [right; exact Hin | exact Hc].
      * destruct q as [|q']; [cbn [skipn] in Hat; congruence|].
        exact (Hrec O q' eq_refl ltac:(lia)).
    + destruct q as [|q']; [lia|].
      exact (Hrec s q' eq_refl ltac:(lia)).
Qed.

End CaptureComplete.

(** X18: [templates] and [references] miss nothing: every offset of the
    document at which the pattern matches lies within the span of a
    yielded capture (it starts one, or it is covered by an earlier one,
    since matches do not overlap). *)
Theorem captures_miss_nothing (D : text) :
  (forall p n, template_at (skipn p D) = Some n ->
     exists c, In c (templates D)
               /\ span_begin (span c) <= Z.of_nat p < span_end (span c))
  /\ (forall p n, reference_at (skipn p D) = Some n ->
        exists c, In c (references D)
                  /\ span_begin (span c) <= Z.of_nat p < span_end (span c)).
Proof.
  split; intros p n Hat.
  - refine (capture_scan_covers template_at _ D [] O p n Hat (Nat.le_0_l p)).
    intros l k H. apply template_at_sound in H as (_ & H & _). lia.
  - refine (capture_scan_covers reference_at _ D [] O p n Hat (Nat.le_0_l p)).
    intros l k H. apply reference_at_sound in H as (_ & H & _). lia.
Qed.
